(** * Life-trajectory embeddings: the embedding service

    A shallow embedding of [backend/embeddings.py] (class [EmbeddingService])
    and the properties of its narrative synthesis, projection guard,
    nearest-cluster scan and similarity search.

    - Python floats are IEEE 754 binary64 numbers: they are Rocq's
      primitive floats, the same format with the same operations, NaN and
      the infinities included.
    - A Python string is a [string]: a sequence of characters whose code
      points are below 256.
    - A life event is a record of its entries.  Under ['event_type'] the
      key is missing, or holds [None] or a string, and the code tells the
      three apart; under the other keys a missing key and a [None] value
      read the same, as they do for the code.
    - The dict of event groups is an association list in insertion order.
    - [np.argsort] is a parameter of the similarity search, constrained by
      what NumPy promises of it; an insertion argsort shows the promise can
      be kept and runs the examples.
    - [np.linalg.norm] of a vector is the root of a dot product that NumPy
      leaves to the BLAS library it was built with, whose rounding differs
      from one build to another: the dot product is a parameter of the
      nearest-cluster scan.  Under [axis=1] the norm of a row is computed
      by NumPy itself, and is modelled as such.
    - The hosted embedding model and the fitted PCA and UMAP objects are
      opaque; a method of the service is a function from the instance to a
      result or an exception and the instance afterwards. *)

From Stdlib Require Import List String Ascii ZArith Lia Bool Floats.
From Stdlib Require Import Permutation Sorted DecimalString PeanoNat.
Import ListNotations.

Local Open Scope list_scope.
Local Open Scope string_scope.

(* ================================================================== *)
(** * Python built-ins used by the service *)
(* ================================================================== *)

Module Py.

(** Truth value of an [Optional[str]]: [None] and [''] are falsy. *)
Definition truthy (v : option string) : bool :=
  match v with
  | Some s => negb (s =? "")
  | None => false
  end.

(** [str(v)], as an f-string renders a value. *)
Definition str (v : option string) : string :=
  match v with
  | Some s => s
  | None => "None"
  end.

(** [f"{v or d}"]. *)
Definition or_str (v : option string) (d : string) : string :=
  if truthy v then str v else d.

(** [str(n)] for a non-negative integer. *)
Definition str_of_nat (n : nat) : string :=
  NilZero.string_of_uint (Nat.to_uint n).

(** [sep.join(l)]. *)
Definition join (sep : string) (l : list string) : string :=
  String.concat sep l.

(** [l[:k]] for a Python integer [k]: a negative [k] counts from the end. *)
Definition slice_to {A : Type} (k : Z) (l : list A) : list A :=
  if (k <? 0)%Z
  then firstn (Z.to_nat (Z.of_nat (List.length l) + k)) l
  else firstn (Z.to_nat k) l.

(** [str.isspace] on one character, for the code points below 256. *)
Definition isspace (c : ascii) : bool :=
  let n := nat_of_ascii c in
  (((9 <=? n) && (n <=? 13)) || ((28 <=? n) && (n <=? 32))
   || (n =? 133) || (n =? 160))%nat.

Fixpoint lstrip (s : string) : string :=
  match s with
  | EmptyString => EmptyString
  | String c r => if isspace c then lstrip r else s
  end.

Fixpoint rstrip (s : string) : string :=
  match s with
  | EmptyString => EmptyString
  | String c r =>
      match rstrip r with
      | EmptyString => if isspace c then EmptyString else String c EmptyString
      | r' => String c r'
      end
  end.

(** [s.strip()]. *)
Definition strip (s : string) : string := rstrip (lstrip s).

(** [sub in s]. *)
Definition contains (sub s : string) : Prop :=
  exists pre post, s = pre ++ sub ++ post.

(** [sub in s], computed: [sub] starts [s] or occurs further on. *)
Fixpoint containsb (sub s : string) : bool :=
  String.prefix sub s
  || match s with
     | EmptyString => false
     | String _ r => containsb sub r
     end.

End Py.

(* ================================================================== *)
(** * NumPy operations used by the service *)
(* ================================================================== *)

Module Np.

Local Open Scope float_scope.

(** An array of shape (3,). *)
Definition array3 : Type := (float * float * float)%type.

(** [a - b] on arrays of shape (3,), and row-wise by broadcasting. *)
Definition sub3 (a b : array3) : array3 :=
  let '(a0, a1, a2) := a in
  let '(b0, b1, b2) := b in
  (a0 - b0, a1 - b1, a2 - b2).

(** [np.linalg.norm(m, axis=1)] on one row of the matrix [m]: the items
    are squared, each square rounded, the squares of the row are added
    from left to right, and the root is taken. *)
Definition norm (v : array3) : float :=
  let '(v0, v1, v2) := v in
  sqrt (v0 * v0 + v1 * v1 + v2 * v2).

(** [np.linalg.norm(x)] of an array of shape (3,), without [axis]: NumPy
    takes the root of [x.dot(x)], and hands the dot product to the BLAS
    routine it was built with.  Which intermediate results that routine
    rounds (every product, or none where it fuses a multiplication with
    the addition that follows) varies with the library and the processor,
    and the last bit of the result varies with it.  The dot product is
    therefore a parameter [dot] of the code that takes this norm. *)
Definition norm_1d (dot : array3 -> array3 -> float) (x : array3) : float :=
  sqrt (dot x x).

(** What any dot product returns on the zero vector. *)
Definition dot_zero (dot : array3 -> array3 -> float) : Prop :=
  dot (0, 0, 0) (0, 0, 0) = 0.

(** A dot product that rounds every product and adds from left to right,
    as a BLAS routine without fused multiply-add does.  It runs the
    examples: their products and sums are exact, overflow or are NaN
    whatever is rounded. *)
Definition dot_rounded (a b : array3) : float :=
  let '(a0, a1, a2) := a in
  let '(b0, b1, b2) := b in
  a0 * b0 + a1 * b1 + a2 * b2.

(** The fused multiply-add of IEEE 754, [x * y + z] rounded once: the
    product of two finite numbers is formed exactly. *)
Definition SFfma (x y z : spec_float) : spec_float :=
  match x, y, z with
  | S754_finite sx mx ex, S754_finite sy my ey, S754_finite _ _ _ =>
      SFadd prec emax (S754_finite (xorb sx sy) (mx * my) (ex + ey)) z
  | S754_finite _ _ _, S754_finite _ _ _, S754_zero _ => SFmul prec emax x y
  | S754_finite _ _ _, S754_finite _ _ _, _ => z
  | _, _, _ => SFadd prec emax (SFmul prec emax x y) z
  end.

Definition fma (x y z : float) : float :=
  SF2Prim (SFfma (Prim2SF x) (Prim2SF y) (Prim2SF z)).

(** A dot product that adds every product to the sum so far, starting at
    0.0, with one fused multiply-add: what a BLAS routine built for a
    processor with that instruction may compute on three items. *)
Definition dot_fused (a b : array3) : float :=
  let '(a0, a1, a2) := a in
  let '(b0, b1, b2) := b in
  fma a2 b2 (fma a1 b1 (fma a0 b0 0)).

(** The order NumPy sorts floats by: [<], with NaN after every number. *)
Definition lt (a b : float) : bool :=
  (a <? b) || (is_nan b && negb (is_nan a)).

(** [a[i]]; the default is never reached on an index in range. *)
Definition item (a : list float) (i : nat) : float := nth i a nan.

(** The indices [idx] list elements of [a] in ascending order: no element
    sorts before one listed earlier. *)
Definition is_sorted_by (a : list float) (idx : list nat) : Prop :=
  forall p q, (p < q < List.length idx)%nat ->
    lt (item a (nth q idx 0%nat)) (item a (nth p idx 0%nat)) = false.

(** What [np.argsort(a)] promises: the indices of [a], each once, in an
    order that sorts [a].  The default [kind] ('quicksort') makes no promise
    on the order of equal elements. *)
Definition is_argsort (a : list float) (idx : list nat) : Prop :=
  Permutation idx (seq 0 (List.length a)) /\ is_sorted_by a idx.

(** What [kind='stable'] adds: of two positions, the earlier holds the
    smaller index unless its element is strictly smaller. *)
Definition is_stable (a : list float) (idx : list nat) : Prop :=
  forall p q, (p < q < List.length idx)%nat ->
    lt (item a (nth p idx 0%nat)) (item a (nth q idx 0%nat)) = false ->
    (nth p idx 0 < nth q idx 0)%nat.

(** An argsort that meets the promise: insertion of the indices in
    increasing order, each after the elements that are not greater. *)
Fixpoint insert_index (a : list float) (i : nat) (sorted : list nat) : list nat :=
  match sorted with
  | [] => [i]
  | j :: rest =>
      if lt (item a i) (item a j) then i :: j :: rest
      else j :: insert_index a i rest
  end.

Definition argsort_insertion (a : list float) : list nat :=
  fold_left (fun acc i => insert_index a i acc) (seq 0 (List.length a)) [].

(** A finite array of shape (3,): no NaN and no infinity among its items. *)
Definition is_finite3 (v : array3) : bool :=
  let '(v0, v1, v2) := v in
  is_finite v0 && is_finite v1 && is_finite v2.

End Np.

(* ================================================================== *)
(** * Data model *)
(* ================================================================== *)

(** [datetime.date], compared as Python compares dates. *)
Record date : Type := mkDate { year : nat; month : nat; day : nat }.

(** [datetime.min.date()]. *)
Definition date_min : date := mkDate 1 1 1.

Definition date_ltb (a b : date) : bool :=
  (year a <? year b)%nat
  || ((year a =? year b)%nat
      && ((month a <? month b)%nat
          || ((month a =? month b)%nat && (day a <? day b)%nat))).

(** The entry of a dict under a key whose value is an [Optional[str]]:
    the key is missing, or it holds [None] or a string. *)
Inductive entry : Type :=
| Missing
| IsNone
| Str (s : string).

(** A life event as the service receives it: a dict.  Under ['event_type']
    a missing key and [None] are told apart; the other entries may be
    missing or [None], and both read as [None] here. *)
Record LifeEvent : Type := mkEvent {
  event_type : entry;
  event_title : option string;
  organization : option string;
  start_date : option date
}.

(** [models.Coordinate3D], the value under ['avg_coordinates']. *)
Record Coordinate3D : Type := mkCoord { x : float; y : float; z : float }.

(** A cluster information dict. *)
Record ClusterInfo : Type := mkCluster {
  cluster_id : Z;
  cluster_label : string;
  avg_coordinates : Coordinate3D
}.

(* ================================================================== *)
(** * Narrative synthesis: [create_narrative_from_events] *)
(* ================================================================== *)

(** [event.get('event_type', 'other')]: the default stands for a missing
    key only; a value is returned as it is, [None] included. *)
Definition get_event_type (e : LifeEvent) : option string :=
  match event_type e with
  | Missing => Some "other"
  | IsNone => None
  | Str t => Some t
  end.

(** [a == b] on the keys of [event_types]: [None] equals [None] only. *)
Definition key_eqb (a b : option string) : bool :=
  match a, b with
  | Some s, Some t => s =? t
  | None, None => true
  | _, _ => false
  end.

(** [event.get('event_type', 'other') == k]. *)
Definition has_key (k : option string) (e : LifeEvent) : bool :=
  key_eqb (get_event_type e) k.

(** [event.get('event_type', 'other') == t], for a string [t]. *)
Definition has_type (t : string) (e : LifeEvent) : bool :=
  has_key (Some t) e.

(** The dict [event_types]: keys in insertion order, each with its events
    in the order they were appended. *)
Definition groups : Type := list (option string * list LifeEvent).

Fixpoint group_append (g : groups) (t : option string) (e : LifeEvent) : groups :=
  match g with
  | [] => [(t, [e])]
  | (t', es) :: rest =>
      if key_eqb t' t then (t', (es ++ [e])%list) :: rest
      else (t', es) :: group_append rest t e
  end.

Definition group_events (events : list LifeEvent) : groups :=
  fold_left (fun g e => group_append g (get_event_type e) e) events [].

(** [event_types[t]] when [t in event_types]. *)
Fixpoint lookup (t : option string) (g : groups) : option (list LifeEvent) :=
  match g with
  | [] => None
  | (t', es) :: rest => if key_eqb t' t then Some es else lookup t rest
  end.

(** The sort key [e.get('start_date') or datetime.min.date()]. *)
Definition sort_key (e : LifeEvent) : date :=
  match start_date e with
  | Some d => d
  | None => date_min
  end.

(** [sorted(events, key=sort_key)]: a stable sort. *)
Fixpoint insert_by_date (e : LifeEvent) (l : list LifeEvent) : list LifeEvent :=
  match l with
  | [] => [e]
  | e' :: rest =>
      if date_ltb (sort_key e) (sort_key e') then e :: e' :: rest
      else e' :: insert_by_date e rest
  end.

Definition sorted_by_start_date (l : list LifeEvent) : list LifeEvent :=
  fold_left (fun acc e => insert_by_date e acc) l [].

(** Collects the labels a loop appends, in order. *)
Fixpoint collect {A B : Type} (f : A -> option B) (l : list A) : list B :=
  match l with
  | [] => []
  | a :: rest =>
      match f a with
      | Some b => b :: collect f rest
      | None => collect f rest
      end
  end.

(** The biography sentence. *)
Definition biography (name description : option string) : list string :=
  if Py.truthy name || Py.truthy description then
    let bio := Py.or_str name "This person" in
    if Py.truthy description
    then [bio ++ " is " ++ Py.str description ++ "."]
    else [bio ++ "."]
  else [].

(** The label of one education event. *)
Definition edu_label (e : LifeEvent) : option string :=
  let title := event_title e in
  let org := organization e in
  if Py.truthy title && Py.truthy org
  then Some (Py.str title ++ " from " ++ Py.str org)
  else if Py.truthy title then Some (Py.str title)
  else None.

Definition edu_parts (edu_events : list LifeEvent) : list string :=
  collect edu_label (sorted_by_start_date edu_events).

Definition education_sentence (parts : list string) : list string :=
  match parts with
  | [] => []
  | _ =>
      if (List.length parts =? 1)%nat
      then ["Studied " ++ nth 0 parts "" ++ "."]
      else
        let edu_str :=
          Py.join ", " (Py.slice_to (-1) parts) ++ " and " ++ last parts "" in
        ["Educational background includes " ++ edu_str ++ "."]
  end.

(** The label of one employment event. *)
Definition emp_label (e : LifeEvent) : option string :=
  let title := event_title e in
  let org := organization e in
  if Py.truthy title && Py.truthy org
  then Some (Py.str title ++ " at " ++ Py.str org)
  else if Py.truthy org then Some ("worked at " ++ Py.str org)
  else if Py.truthy title then Some (Py.str title)
  else None.

Definition emp_parts (emp_events : list LifeEvent) : list string :=
  collect emp_label (sorted_by_start_date emp_events).

Definition employment_sentence (parts : list string) : list string :=
  match parts with
  | [] => []
  | _ =>
      if (List.length parts <=? 3)%nat
      then ["Career includes " ++ Py.join ", " parts ++ "."]
      else
        let career_str :=
          Py.join ", " (Py.slice_to 3 parts)
          ++ " and " ++ Py.str_of_nat (List.length parts - 3) ++ " other positions" in
        ["Career includes " ++ career_str ++ "."]
  end.

(** [e.get('event_title', '') for e in award_events if e.get('event_title')]. *)
Definition award_name (e : LifeEvent) : option string :=
  if Py.truthy (event_title e) then Some (Py.str (event_title e)) else None.

Definition award_sentence (award_events : list LifeEvent) : list string :=
  if (List.length award_events <=? 5)%nat then
    let award_names := collect award_name award_events in
    match award_names with
    | [] => []
    | _ => ["Received awards: " ++ Py.join ", " award_names ++ "."]
    end
  else ["Received " ++ Py.str_of_nat (List.length award_events) ++ " awards and honors."].

(** [event_type not in ['education', 'employment', 'award']]. *)
Definition is_other_type (t : option string) : bool :=
  negb (key_eqb t (Some "education") || key_eqb t (Some "employment")
        || key_eqb t (Some "award")).

(** One iteration of the loop over the keys; the f-string renders the key
    [None] as the text [None]. *)
Definition other_sentence (item : option string * list LifeEvent) : option string :=
  let '(t, events_of_type) := item in
  if is_other_type t then
    match events_of_type with
    | [] => None
    | _ => Some ("Notable " ++ Py.str t ++ " events: "
                 ++ Py.str_of_nat (List.length events_of_type) ++ ".")
    end
  else None.

(** The sentence a group contributes when its key is in the dict. *)
Definition for_group (t : string) (g : groups)
    (f : list LifeEvent -> list string) : list string :=
  match lookup (Some t) g with
  | Some es => f es
  | None => []
  end.

(** The list [narrative_parts] when the function reaches the final join. *)
Definition narrative_parts (events : list LifeEvent)
    (name description : option string) : list string :=
  let event_types := group_events events in
  (biography name description
   ++ for_group "education" event_types (fun es => education_sentence (edu_parts es))
   ++ for_group "employment" event_types (fun es => employment_sentence (emp_parts es))
   ++ for_group "award" event_types award_sentence
   ++ collect other_sentence event_types)%list.

Definition fallback_narrative : string :=
  "This person has a diverse background with various life experiences.".

Definition create_narrative_from_events (events : list LifeEvent)
    (name description : option string) : string :=
  let narrative := Py.join " " (narrative_parts events name description) in
  if (Py.strip narrative =? "") then fallback_narrative else narrative.

(* ================================================================== *)
(** * Nearest cluster and similar persons *)
(* ================================================================== *)

(** [np.array([c['avg_coordinates']['x'], ...['y'], ...['z']])]. *)
Definition cluster_center (cluster : ClusterInfo) : Np.array3 :=
  (x (avg_coordinates cluster), y (avg_coordinates cluster), z (avg_coordinates cluster)).

(** One iteration of the scan, on the pair [(min_distance, nearest_cluster)];
    [dot] is the dot product behind [np.linalg.norm]. *)
Definition nearest_step (dot : Np.array3 -> Np.array3 -> float)
    (coordinates_3d : Np.array3)
    (st : float * option ClusterInfo) (cluster : ClusterInfo)
    : float * option ClusterInfo :=
  let '(min_distance, nearest_cluster) := st in
  let distance := Np.norm_1d dot (Np.sub3 coordinates_3d (cluster_center cluster)) in
  if (distance <? min_distance)%float
  then (distance, Some cluster)
  else (min_distance, nearest_cluster).

(** [find_nearest_cluster], for a [dot] standing for the dot product of
    the installed NumPy. *)
Definition find_nearest_cluster (dot : Np.array3 -> Np.array3 -> float)
    (coordinates_3d : Np.array3)
    (clusters_info : list ClusterInfo) : option ClusterInfo :=
  snd (fold_left (nearest_step dot coordinates_3d) clusters_info (infinity, None)).

(** [np.linalg.norm(all_coordinates - coordinates_3d, axis=1)]. *)
Definition distances (coordinates_3d : Np.array3)
    (all_coordinates : list Np.array3) : list float :=
  map (fun row => Np.norm (Np.sub3 row coordinates_3d)) all_coordinates.

(** The list comprehension over the chosen indices; [None] stands for the
    [IndexError] of [all_person_ids[i]] or [distances[i]]. *)
Fixpoint pair_up (all_person_ids : list string) (ds : list float)
    (indices : list nat) : option (list (string * float)) :=
  match indices with
  | [] => Some []
  | i :: rest =>
      match nth_error all_person_ids i, nth_error ds i,
            pair_up all_person_ids ds rest with
      | Some pid, Some d, Some tl => Some ((pid, d) :: tl)
      | _, _, _ => None
      end
  end.

(** [find_similar_persons], for an [argsort] standing for [np.argsort]. *)
Definition find_similar_persons (argsort : list float -> list nat)
    (coordinates_3d : Np.array3) (all_person_ids : list string)
    (all_coordinates : list Np.array3) (top_k : Z)
    : option (list (string * float)) :=
  let ds := distances coordinates_3d all_coordinates in
  let top_k_indices := Py.slice_to top_k (argsort ds) in
  pair_up all_person_ids ds top_k_indices.

(* ================================================================== *)
(** * The service object: attributes, exceptions and methods *)
(* ================================================================== *)

Section Service.

(** The collaborators are opaque: the hosted embedding model, the fitted
    PCA and UMAP objects, and the exceptions their calls may raise.  A call
    on a collaborator is a function of the object and its argument. *)
Variables EmbeddingModel PCA UMAP LibError : Type.
Variable get_embeddings :
  EmbeddingModel -> list string -> LibError + list (list float).
Variable pca_transform : PCA -> list (list float) -> LibError + list (list float).
Variable umap_transform : UMAP -> list (list float) -> LibError + list (list float).
Variable dot : Np.array3 -> Np.array3 -> float.
Variable argsort : list float -> list nat.

(** The attributes of an [EmbeddingService] instance. *)
Record EmbeddingService : Type := mkService {
  embedding_model : EmbeddingModel;
  pca_model : option PCA;
  umap_model : option UMAP;
  _models_loaded : bool
}.

(** What a method call can raise.  [ModelNotReady] is the [RuntimeError]
    of the guard of [project_to_3d]; [Raised] is an exception coming out
    of a collaborator. *)
Inductive exn : Type :=
| ModelNotReady
| AttributeError
| IndexError
| Raised (e : LibError).

(** A method body: it reads and writes [self] and returns or raises. *)
Definition M (A : Type) : Type :=
  EmbeddingService -> (exn + A) * EmbeddingService.

Definition ret {A : Type} (a : A) : M A := fun self => (inr a, self).

Definition bind {A B : Type} (m : M A) (f : A -> M B) : M B :=
  fun self =>
    match m self with
    | (inl e, self') => (inl e, self')
    | (inr a, self') => f a self'
    end.

Definition raise {A : Type} (e : exn) : M A := fun self => (inl e, self).

Definition getattr {A : Type} (field : EmbeddingService -> A) : M A :=
  fun self => (inr (field self), self).

Definition setattr (update : EmbeddingService -> EmbeddingService) : M unit :=
  fun self => (inr tt, update self).

Definition call_lib {A : Type} (r : LibError + A) : M A :=
  match r with
  | inl e => raise (Raised e)
  | inr a => ret a
  end.

Notation "x <- m ;; k" := (bind m (fun x => k))
  (at level 61, m at next level, right associativity).
Notation "m ;;; k" := (bind m (fun _ => k))
  (at level 61, right associativity).

Definition set_pca_model (v : option PCA) (self : EmbeddingService) :=
  mkService (embedding_model self) v (umap_model self) (_models_loaded self).

Definition set_umap_model (v : option UMAP) (self : EmbeddingService) :=
  mkService (embedding_model self) (pca_model self) v (_models_loaded self).

Definition set_models_loaded (v : bool) (self : EmbeddingService) :=
  mkService (embedding_model self) (pca_model self) (umap_model self) v.

(** [__init__], given the model [TextEmbeddingModel.from_pretrained] returned. *)
Definition __init__ (model : EmbeddingModel) : EmbeddingService :=
  mkService model None None false.

Definition load_reduction_models (pca : option PCA) (umap : option UMAP) : M unit :=
  setattr (set_pca_model pca) ;;;
  setattr (set_umap_model umap) ;;;
  setattr (set_models_loaded true).

Definition generate_embedding (text : string) : M (list float) :=
  model <- getattr embedding_model ;;
  embeddings <- call_lib (get_embeddings model [text]) ;;
  match embeddings with
  | values :: _ => ret values
  | [] => raise IndexError
  end.

Definition project_to_3d (embedding_768d : list float) : M (list float) :=
  loaded <- getattr _models_loaded ;;
  if negb loaded then raise ModelNotReady
  else
    pca <- getattr pca_model ;;
    embedding_50d <-
      match pca with
      | Some p => call_lib (pca_transform p [embedding_768d])
      | None => raise AttributeError
      end ;;
    umap <- getattr umap_model ;;
    coordinates_3d <-
      match umap with
      | Some u => call_lib (umap_transform u embedding_50d)
      | None => raise AttributeError
      end ;;
    match coordinates_3d with
    | row :: _ => ret row
    | [] => raise IndexError
    end.

(** A call of one of the service's methods, with its arguments. *)
Inductive call : Type :=
| Call_load_reduction_models (pca : option PCA) (umap : option UMAP)
| Call_create_narrative_from_events
    (events : list LifeEvent) (name description : option string)
| Call_generate_embedding (text : string)
| Call_project_to_3d (embedding_768d : list float)
| Call_find_nearest_cluster
    (coordinates_3d : Np.array3) (clusters_info : list ClusterInfo)
| Call_find_similar_persons
    (coordinates_3d : Np.array3) (all_person_ids : list string)
    (all_coordinates : list Np.array3) (top_k : Z).

Definition is_load (c : call) : bool :=
  match c with
  | Call_load_reduction_models _ _ => true
  | _ => false
  end.

(** The instance after a call, whether it returned or raised. *)
Definition after (c : call) (self : EmbeddingService) : EmbeddingService :=
  match c with
  | Call_load_reduction_models pca umap =>
      snd (load_reduction_models pca umap self)
  | Call_create_narrative_from_events events name description =>
      snd (ret (create_narrative_from_events events name description) self)
  | Call_generate_embedding text =>
      snd (generate_embedding text self)
  | Call_project_to_3d embedding_768d =>
      snd (project_to_3d embedding_768d self)
  | Call_find_nearest_cluster coordinates_3d clusters_info =>
      snd (ret (find_nearest_cluster dot coordinates_3d clusters_info) self)
  | Call_find_similar_persons coordinates_3d ids coords top_k =>
      snd (ret (find_similar_persons argsort coordinates_3d ids coords top_k) self)
  end.

Definition after_all (cs : list call) (self : EmbeddingService) : EmbeddingService :=
  fold_left (fun s c => after c s) cs self.

End Service.

Arguments ModelNotReady {LibError}.
Arguments AttributeError {LibError}.
Arguments IndexError {LibError}.
Arguments mkService {EmbeddingModel PCA UMAP}.
Arguments Call_load_reduction_models {PCA UMAP} pca umap.
Arguments Call_create_narrative_from_events {PCA UMAP} events name description.
Arguments Call_generate_embedding {PCA UMAP} text.
Arguments Call_project_to_3d {PCA UMAP} embedding_768d.
Arguments Call_find_nearest_cluster {PCA UMAP} coordinates_3d clusters_info.
Arguments Call_find_similar_persons {PCA UMAP}
  coordinates_3d all_person_ids all_coordinates top_k.
Arguments __init__ {EmbeddingModel} PCA UMAP model.
Arguments _models_loaded {EmbeddingModel PCA UMAP} self : rename.
Arguments pca_model {EmbeddingModel PCA UMAP} self : rename.
Arguments umap_model {EmbeddingModel PCA UMAP} self : rename.
Arguments embedding_model {EmbeddingModel PCA UMAP} self : rename.
Arguments load_reduction_models {EmbeddingModel PCA UMAP LibError} pca umap self.
Arguments project_to_3d {EmbeddingModel PCA UMAP LibError}
  pca_transform umap_transform embedding_768d self.
Arguments generate_embedding {EmbeddingModel PCA UMAP LibError}
  get_embeddings text self.
Arguments is_load {PCA UMAP} c.
Arguments after {EmbeddingModel PCA UMAP LibError}
  get_embeddings pca_transform umap_transform dot argsort c self.
Arguments after_all {EmbeddingModel PCA UMAP LibError}
  get_embeddings pca_transform umap_transform dot argsort cs self.

(* ================================================================== *)
(** * Vocabulary of the statements *)
(* ================================================================== *)

(** ** Strings made of white space *)

(** Every character of [s] is white space. *)
Fixpoint all_space (s : string) : bool :=
  match s with
  | EmptyString => true
  | String c r => Py.isspace c && all_space r
  end.

(** ** The order of binary64 numbers

    A float that is not NaN is ranked by a triple of integers, compared
    lexicographically: its class (negative infinity, negative, zero,
    positive, positive infinity), then exponent and mantissa, negated for
    the negative numbers.  The comparisons of the floats are the
    comparisons of their ranks. *)

Definition key : Type := (Z * Z * Z)%type.

Definition SFkey (x : spec_float) : key :=
  match x with
  | S754_nan => (3, 0, 0)
  | S754_infinity true => (-2, 0, 0)
  | S754_infinity false => (2, 0, 0)
  | S754_zero _ => (0, 0, 0)
  | S754_finite true m e => (-1, - e, - Z.pos m)
  | S754_finite false m e => (1, e, Z.pos m)
  end%Z.

Definition SFis_nan (x : spec_float) : bool :=
  match x with S754_nan => true | _ => false end.

Definition klt (a b : key) : Prop :=
  let '(a1, a2, a3) := a in
  let '(b1, b2, b3) := b in
  (a1 < b1 \/ (a1 = b1 /\ (a2 < b2 \/ (a2 = b2 /\ a3 < b3))))%Z.

Definition fkey (x : float) : key := SFkey (Prim2SF x).

(** ** Sorting indices *)

(** Index [i] is not after index [j] in the order of [a]. *)
Definition not_after (a : list float) (i j : nat) : Prop :=
  Np.lt (Np.item a j) (Np.item a i) = false.

(** Index [i] stands before index [j] in a stable sort of [a]. *)
Definition stable_before (a : list float) (i j : nat) : Prop :=
  not_after a i j /\ (Np.lt (Np.item a i) (Np.item a j) = false -> i < j).

(** ** Nearest cluster *)

(** The distance the scan computes for a cluster. *)
Definition dist (dot : Np.array3 -> Np.array3 -> float)
    (p : Np.array3) (c : ClusterInfo) : float :=
  Np.norm_1d dot (Np.sub3 p (cluster_center c)).

(** What the scan holds after the clusters [l]: nothing when no distance
    was below infinity, else the first cluster of least distance. *)
Definition scanned (dot : Np.array3 -> Np.array3 -> float)
    (p : Np.array3) (l : list ClusterInfo)
    (st : float * option ClusterInfo) : Prop :=
  match snd st with
  | None =>
      fst st = infinity /\
      forall c, In c l -> (dist dot p c <? infinity)%float = false
  | Some c =>
      fst st = dist dot p c /\
      (dist dot p c <? infinity)%float = true /\
      exists i, nth_error l i = Some c /\
        (forall c', In c' l -> (dist dot p c' <? dist dot p c)%float = false) /\
        (forall j c', j < i -> nth_error l j = Some c' ->
           (dist dot p c' <=? dist dot p c)%float = false)
  end.

(** ** Narrative labels *)

(** An event has a non-empty title. *)
Definition titled (e : LifeEvent) : bool := Py.truthy (event_title e).

(** The label the education loop gives an event with a title. *)
Definition titled_label (e : LifeEvent) : string :=
  if Py.truthy (organization e)
  then Py.str (event_title e) ++ " from " ++ Py.str (organization e)
  else Py.str (event_title e).

(** The label of an education event as the specification words it: both
    fields when both are present, else whichever is present. *)
Definition edu_label_as_specified (e : LifeEvent) : option string :=
  match Py.truthy (event_title e), Py.truthy (organization e) with
  | true, true => Some (Py.str (event_title e) ++ " from " ++ Py.str (organization e))
  | true, false => Some (Py.str (event_title e))
  | false, true => Some (Py.str (organization e))
  | false, false => None
  end.

(** The claim on education labels as the specification words it. *)
Definition labels_as_specified (edu_events : list LifeEvent) : Prop :=
  forall e l, In e edu_events -> edu_label_as_specified e = Some l ->
    In l (edu_parts edu_events).

(** The closing example of C7 as stated: four employment events give a
    narrative containing "and 1 other positions". *)
Definition four_events_as_specified (events : list LifeEvent) : Prop :=
  List.length (filter (has_type "employment") events) = 4 ->
  Py.contains "and 1 other positions" (create_narrative_from_events events None None).

(** The second clause of C8 as stated: at most five items with non-empty
    titles are listed after "Received awards: ". *)
Definition award_list_as_specified (events : list LifeEvent) : Prop :=
  let award_events := filter (has_type "award") events in
  let titles := map (fun e => Py.str (event_title e)) (filter titled award_events) in
  List.length titles <= 5 ->
  In ("Received awards: " ++ Py.join ", " titles ++ ".")
     (narrative_parts events None None).

(* ================================================================== *)
(** * Inputs used in the examples *)
(* ================================================================== *)

(** An education event with an organization and an empty title. *)
Definition org_only_event : LifeEvent :=
  mkEvent (Str "education") (Some "") (Some "MIT") None.

(** Four employment events, each with a title or an organization. *)
Definition four_jobs : list LifeEvent :=
  [ mkEvent (Str "employment") (Some "Clerk") None (Some (mkDate 1990 1 1));
    mkEvent (Str "employment") None (Some "Acme") (Some (mkDate 1985 6 1));
    mkEvent (Str "employment") (Some "Manager") (Some "Acme") None;
    mkEvent (Str "employment") (Some "Director") (Some "Initech") (Some (mkDate 2001 3 9)) ].

(** Four employment events with an empty title and no organization. *)
Definition four_blank_jobs : list LifeEvent :=
  repeat (mkEvent (Str "employment") (Some "") None None) 4.

(** One award event with an empty title. *)
Definition blank_award : list LifeEvent :=
  [mkEvent (Str "award") (Some "") None None].

(** A query point with a NaN coordinate. *)
Definition nan_point : Np.array3 := (nan, 0, 0)%float.

(** Six award events, two of them without a title. *)
Definition six_awards : list LifeEvent :=
  [ mkEvent (Str "award") (Some "Medal") None None;
    mkEvent (Str "award") (Some "") None None;
    mkEvent (Str "award") (Some "Prize") (Some "Academy") None;
    mkEvent (Str "award") None None None;
    mkEvent (Str "award") (Some "Cup") None None;
    mkEvent (Str "award") (Some "Ribbon") None None ].

(** A query point so far from the origin that its squared distance
    overflows, and a cluster at the origin. *)
Definition far_point : Np.array3 := (0x1p+600, 0, 0)%float.
Definition origin_cluster : ClusterInfo := mkCluster 0 "origin" (mkCoord 0 0 0).

(** Three clusters, two of them at the same least distance from the origin. *)
Definition three_clusters : list ClusterInfo :=
  [ mkCluster 1 "far" (mkCoord 2 0 0);
    mkCluster 2 "near" (mkCoord 0 1 0);
    mkCluster 3 "tie" (mkCoord 1 0 0) ].

Definition origin : Np.array3 := (0, 0, 0)%float.

(** Two clusters at (0.1, 0.1, 0.5) and (0.3, 0.3, 0.3), written as the
    binary64 numbers these decimals denote: from the origin their
    distances differ in the last bit or not at all, with the rounding of
    the dot product. *)
Definition near_tie_clusters : list ClusterInfo :=
  [ mkCluster 1 "first"
      (mkCoord 0x1.999999999999ap-4 0x1.999999999999ap-4 0x1p-1);
    mkCluster 2 "second"
      (mkCoord 0x1.3333333333333p-2 0x1.3333333333333p-2 0x1.3333333333333p-2) ].


(** A corpus of three rows at distances 2, 0 and 1 from the origin. *)
Definition three_ids : list string := ["p0"; "p1"; "p2"]%string.
Definition three_rows : list Np.array3 :=
  [(2, 0, 0); (0, 0, 0); (0, 1, 0)]%float.

(** Collaborators for a run: models that return their input. *)
Definition echo (_ : unit) (m : list (list float)) : unit + list (list float) := inr m.
Definition no_embedding (_ : unit) (_ : list string) : unit + list (list float) := inr [].


(** The first clause of C2 as stated: no entry for any [k <= 0]. *)
Definition nonpositive_k_empty (argsort : list float -> list nat)
    (p : Np.array3) (ids : list string) (coords : list Np.array3) : Prop :=
  forall k, (k <= 0)%Z -> find_similar_persons argsort p ids coords k = Some [].

(* ================================================================== *)
(** * Vocabulary of the further properties *)
(* ================================================================== *)

(** The distinct keys of a list, in order of first occurrence. *)
Fixpoint distinct (l : list (option string)) : list (option string) :=
  match l with
  | [] => []
  | t :: r => t :: filter (fun u => negb (key_eqb u t)) (distinct r)
  end.

(** The sentence for the events of a type outside the three main groups;
    the type [None] is written [None]. *)
Definition notable_sentence (events : list LifeEvent) (t : option string) : string :=
  "Notable " ++ Py.str t ++ " events: "
  ++ Py.str_of_nat (List.length (filter (has_key t) events)) ++ ".".

(** An employment event has a title or an organization. *)
Definition labelled (e : LifeEvent) : bool :=
  Py.truthy (event_title e) || Py.truthy (organization e).

(** The label the employment loop gives a labelled event. *)
Definition labelled_text (e : LifeEvent) : string :=
  if Py.truthy (event_title e) && Py.truthy (organization e)
  then Py.str (event_title e) ++ " at " ++ Py.str (organization e)
  else if Py.truthy (organization e) then "worked at " ++ Py.str (organization e)
  else Py.str (event_title e).

(** The input gives the narrative nothing to say: no name, no description,
    no education event with a title, no employment event with a title or
    an organization, at most five award events and none with a title, and
    no event of another type. *)
Definition nothing_to_say (events : list LifeEvent)
    (name description : option string) : bool :=
  negb (Py.truthy name) && negb (Py.truthy description)
  && forallb (fun e => negb (titled e)) (filter (has_type "education") events)
  && forallb (fun e => negb (labelled e)) (filter (has_type "employment") events)
  && (List.length (filter (has_type "award") events) <=? 5)%nat
  && forallb (fun e => negb (titled e)) (filter (has_type "award") events)
  && forallb (fun e => negb (is_other_type (get_event_type e))) events.

(** The sentences of a narrative, read off the input group by group. *)
Definition sentences_in_order (events : list LifeEvent)
    (name description : option string) : list string :=
  (biography name description
   ++ education_sentence (edu_parts (filter (has_type "education") events))
   ++ employment_sentence (emp_parts (filter (has_type "employment") events))
   ++ award_sentence (filter (has_type "award") events)
   ++ map (notable_sentence events)
        (filter is_other_type (distinct (map get_event_type events))))%list.

(** Two dates are the same day. *)
Definition date_eqb (a b : date) : bool :=
  ((year a =? year b) && (month a =? month b) && (day a =? day b))%nat.

(** Event [a] may stand before event [b] in order of start date. *)
Definition by_start_date (a b : LifeEvent) : Prop :=
  date_ltb (sort_key b) (sort_key a) = false.

(** The events of [l] whose sort key is the day [d], in the order of [l]. *)
Definition on_day (d : date) (l : list LifeEvent) : list LifeEvent :=
  filter (fun e => date_eqb (sort_key e) d) l.

(** ** Inputs used in the further examples *)

Definition mixed_events : list LifeEvent :=
  [ mkEvent (Str "residence") None None None;
    mkEvent (Str "education") (Some "BSc") (Some "MIT") (Some (mkDate 2010 9 1));
    mkEvent Missing (Some "Sailing") None None;
    mkEvent (Str "employment") None (Some "Acme") (Some (mkDate 2014 6 1));
    mkEvent (Str "residence") None None None ].

(** Two events whose type is [None] and, between them, one without the key. *)
Definition untyped_events : list LifeEvent :=
  [ mkEvent IsNone (Some "Sailing") None None;
    mkEvent Missing None None None;
    mkEvent IsNone None None None ].

(** Three clusters at distances 2, 0.5 and 1 from the origin. *)
Definition spread_clusters : list ClusterInfo :=
  [ mkCluster 1 "far" (mkCoord 2 0 0);
    mkCluster 2 "near" (mkCoord 0 0.5 0);
    mkCluster 3 "middle" (mkCoord 1 0 0) ].

(** A list is empty. *)
Definition is_nil {A : Type} (l : list A) : bool :=
  match l with [] => true | _ => false end.

(** ** The two reduction stages *)

Section TwoStages.

Variables PCA UMAP LibError : Type.
Variable pca_transform : PCA -> list (list float) -> LibError + list (list float).
Variable umap_transform : UMAP -> list (list float) -> LibError + list (list float).

(** What the two stages compute from an embedding: PCA on the embedding
    as a matrix of one row, UMAP on the outcome, then the first row. *)
Definition two_stages (pca : option PCA) (umap : option UMAP) (v : list float)
    : exn LibError + list float :=
  match pca with
  | None => inl AttributeError
  | Some p =>
      match pca_transform p [v] with
      | inl e => inl (Raised LibError e)
      | inr m =>
          match umap with
          | None => inl AttributeError
          | Some u =>
              match umap_transform u m with
              | inl e => inl (Raised LibError e)
              | inr [] => inl IndexError
              | inr (row :: _) => inr row
              end
          end
      end
  end.

End TwoStages.

Arguments two_stages {PCA UMAP LibError} pca_transform umap_transform pca umap v.

(* ================================================================== *)
(** * Facts on strings *)
(* ================================================================== *)

Module PyFacts.
Import Py.

Lemma append_assoc (a b c : string) : (a ++ b) ++ c = a ++ (b ++ c).
Proof. induction a as [|ch a IH]; simpl; [reflexivity | now rewrite IH]. Qed.

Lemma append_nil_r (a : string) : a ++ "" = a.
Proof. induction a as [|ch a IH]; simpl; [reflexivity | now rewrite IH]. Qed.

Lemma all_space_app (a b : string) :
  all_space (a ++ b) = all_space a && all_space b.
Proof.
  induction a as [|ch a IH]; simpl; [reflexivity|].
  now rewrite IH, andb_assoc.
Qed.

Lemma lstrip_spec (s : string) :
  lstrip s = "" \/ exists c r, lstrip s = String c r /\ isspace c = false.
Proof.
  induction s as [|c r IH]; simpl; [now left|].
  destruct (isspace c) eqn:E; [exact IH|].
  right. now exists c, r.
Qed.

Lemma lstrip_empty (s : string) : lstrip s = "" -> all_space s = true.
Proof.
  induction s as [|c r IH]; simpl; [reflexivity|].
  destruct (isspace c); [exact IH | discriminate].
Qed.

Lemma rstrip_empty (s : string) : rstrip s = "" -> all_space s = true.
Proof.
  induction s as [|c r IH]; simpl; [reflexivity|].
  destruct (rstrip r) eqn:E; [|discriminate].
  destruct (isspace c); [intros _; now apply IH | discriminate].
Qed.

Lemma rstrip_all_space (s : string) : all_space s = true -> rstrip s = "".
Proof.
  induction s as [|c r IH]; simpl; [reflexivity|].
  intros H. apply andb_true_iff in H. destruct H as [Hc Hr].
  now rewrite (IH Hr), Hc.
Qed.

Lemma lstrip_all_space (s : string) : all_space s = true -> lstrip s = "".
Proof.
  induction s as [|c r IH]; simpl; [reflexivity|].
  intros H. apply andb_true_iff in H. destruct H as [Hc Hr].
  now rewrite Hc, (IH Hr).
Qed.

(** [not s.strip()] holds exactly of the strings made of white space. *)
Lemma strip_empty_iff (s : string) : strip s = "" <-> all_space s = true.
Proof.
  unfold strip. split.
  - intros H. apply rstrip_empty in H.
    destruct (lstrip_spec s) as [E | (c & r & E & Hc)].
    + now apply lstrip_empty.
    + rewrite E in H. simpl in H. rewrite Hc in H. discriminate.
  - intros H. now rewrite (lstrip_all_space s H).
Qed.

Lemma contains_refl (s : string) : contains s s.
Proof. exists "", "". simpl. now rewrite append_nil_r. Qed.

Lemma contains_app_l (sub a b : string) : contains sub a -> contains sub (a ++ b).
Proof.
  intros (pre & post & ->). exists pre, (post ++ b).
  now rewrite !append_assoc.
Qed.

Lemma contains_app_r (sub a b : string) : contains sub b -> contains sub (a ++ b).
Proof.
  intros (pre & post & ->). exists (a ++ pre), post.
  now rewrite !append_assoc.
Qed.

Lemma contains_trans (a b c : string) : contains a b -> contains b c -> contains a c.
Proof.
  intros (p1 & q1 & ->) (p2 & q2 & ->). exists (p2 ++ p1), (q1 ++ q2).
  now rewrite !append_assoc.
Qed.

Lemma prefix_app (sub post : string) : String.prefix sub (sub ++ post) = true.
Proof.
  induction sub as [|c sub IH]; simpl; [now destruct post|].
  destruct (Ascii.ascii_dec c c); [exact IH | congruence].
Qed.

(** The computed test finds every occurrence. *)
Lemma contains_containsb (sub s : string) : contains sub s -> containsb sub s = true.
Proof.
  assert (Hhead : forall t, String.prefix sub t = true -> containsb sub t = true).
  { intros t Ht. destruct t as [|c t].
    - change (String.prefix sub "" || false = true). now rewrite Ht.
    - change (String.prefix sub (String c t) || containsb sub t = true).
      now rewrite Ht. }
  intros (pre & post & ->). induction pre as [|c pre IH].
  - change ("" ++ sub ++ post) with (sub ++ post). apply Hhead, prefix_app.
  - change (String.prefix sub (String c (pre ++ sub ++ post))
            || containsb sub (pre ++ sub ++ post) = true).
    rewrite IH. apply orb_true_r.
Qed.

(** A joined list contains each of its items. *)
Lemma contains_join (sep s : string) (l : list string) :
  In s l -> contains s (join sep l).
Proof.
  unfold join. induction l as [|a l IH]; [intros []|].
  intros [-> | Hin].
  - destruct l; simpl; [apply contains_refl | apply contains_app_l, contains_refl].
  - destruct l as [|b l]; [destruct Hin|].
    change (concat sep (a :: b :: l)) with (a ++ sep ++ concat sep (b :: l)).
    now apply contains_app_r, contains_app_r, IH.
Qed.

(** A joined list with an item that is not white space is not white space. *)
Lemma all_space_join (sep : string) (l : list string) :
  l <> [] -> Forall (fun s => all_space s = false) l ->
  all_space (join sep l) = false.
Proof.
  unfold join. destruct l as [|a l]; [congruence|].
  intros _ H. inversion H as [|? ? Ha _]; subst.
  destruct l; simpl; [exact Ha|].
  rewrite all_space_app, Ha. reflexivity.
Qed.

Lemma slice_to_nonneg {A : Type} (k : nat) (l : list A) :
  slice_to (Z.of_nat k) l = firstn k l.
Proof.
  unfold slice_to. destruct (Z.ltb_spec (Z.of_nat k) 0); [lia|].
  now rewrite Nat2Z.id.
Qed.

Lemma slice_to_minus_one {A : Type} (l : list A) (a : A) :
  slice_to (-1) (l ++ [a])%list = l.
Proof.
  unfold slice_to. simpl (_ <? _)%Z. cbv iota.
  rewrite length_app. simpl List.length.
  replace (Z.to_nat (Z.of_nat (List.length l + 1) + -1)) with (List.length l) by lia.
  rewrite firstn_app, Nat.sub_diag, firstn_all. simpl. now rewrite app_nil_r.
Qed.

End PyFacts.

(* ================================================================== *)
(** * Facts on narrative synthesis *)
(* ================================================================== *)

Module NarrativeFacts.
Import Py PyFacts.

Lemma collect_In {A B : Type} (f : A -> option B) (l : list A) (b : B) :
  In b (collect f l) <-> exists a, In a l /\ f a = Some b.
Proof.
  induction l as [|a l IH]; simpl.
  - split; [intros [] | intros (a & [] & _)].
  - destruct (f a) eqn:E; simpl; rewrite IH; split.
    + intros [<- | (a' & H1 & H2)]; [exists a | exists a']; auto.
    + intros (a' & [<- | H1] & H2); [left; congruence | right; eauto].
    + intros (a' & H1 & H2); eauto.
    + intros (a' & [<- | H1] & H2); [congruence | eauto].
Qed.

Lemma collect_app {A B : Type} (f : A -> option B) (l1 l2 : list A) :
  collect f (l1 ++ l2)%list = (collect f l1 ++ collect f l2)%list.
Proof.
  induction l1 as [|a l1 IH]; simpl; [reflexivity|].
  destruct (f a); simpl; now rewrite IH.
Qed.

Lemma collect_length {A B : Type} (f : A -> option B) (l : list A) :
  Forall (fun a => f a <> None) l -> List.length (collect f l) = List.length l.
Proof.
  induction 1 as [|a l Ha _ IH]; simpl; [reflexivity|].
  destruct (f a); [simpl; now rewrite IH | congruence].
Qed.

Lemma collect_filter_map {A B : Type} (f : A -> option B) (p : A -> bool) (g : A -> B)
    (l : list A) :
  (forall a, f a = if p a then Some (g a) else None) ->
  collect f l = map g (filter p l).
Proof.
  intros H. induction l as [|a l IH]; simpl; [reflexivity|].
  rewrite H. destruct (p a); simpl; now rewrite IH.
Qed.

(** ** Grouping by event type *)

Lemma key_eqb_spec (a b : option string) : reflect (a = b) (key_eqb a b).
Proof.
  destruct a as [s|], b as [t|]; simpl; try (constructor; congruence).
  destruct (String.eqb_spec s t); constructor; congruence.
Qed.

Lemma key_eqb_refl (a : option string) : key_eqb a a = true.
Proof. destruct (key_eqb_spec a a); congruence. Qed.

Lemma key_eqb_sym (a b : option string) : key_eqb a b = key_eqb b a.
Proof. destruct (key_eqb_spec a b), (key_eqb_spec b a); congruence. Qed.

Lemma lookup_group_append (g : groups) (t t' : option string) (e : LifeEvent) :
  lookup t (group_append g t' e) =
    if key_eqb t' t
    then Some (match lookup t g with Some es => es ++ [e] | None => [e] end)%list
    else lookup t g.
Proof.
  induction g as [|[t0 es] g IH]; simpl.
  - destruct (key_eqb t' t); reflexivity.
  - destruct (key_eqb_spec t0 t') as [-> | Hne]; simpl.
    + destruct (key_eqb t' t); reflexivity.
    + rewrite IH. destruct (key_eqb_spec t0 t) as [-> | Hne'].
      * destruct (key_eqb_spec t' t); [congruence | reflexivity].
      * reflexivity.
Qed.

Lemma lookup_fold_group (events : list LifeEvent) (g : groups) (t : option string) :
  lookup t (fold_left (fun g e => group_append g (get_event_type e) e) events g) =
    match lookup t g, filter (has_key t) events with
    | Some es, es' => Some (es ++ es')%list
    | None, [] => None
    | None, es' => Some es'
    end.
Proof.
  revert g. induction events as [|e events IH]; intros g; simpl.
  - destruct (lookup t g); [now rewrite app_nil_r | reflexivity].
  - rewrite IH, lookup_group_append. unfold has_key.
    destruct (key_eqb (get_event_type e) t); simpl.
    + destruct (lookup t g); [now rewrite <- app_assoc | reflexivity].
    + reflexivity.
Qed.

(** The group of a key holds the events of that key, in input order. *)
Lemma lookup_group_events (events : list LifeEvent) (t : option string) :
  lookup t (group_events events) =
    match filter (has_key t) events with
    | [] => None
    | es => Some es
    end.
Proof. unfold group_events. now rewrite lookup_fold_group. Qed.

Lemma for_group_filter (events : list LifeEvent) (t : string)
    (f : list LifeEvent -> list string) :
  f [] = [] ->
  for_group t (group_events events) f = f (filter (has_type t) events).
Proof.
  intros Hnil. unfold for_group. rewrite lookup_group_events.
  change (has_key (Some t)) with (has_type t).
  destruct (filter (has_type t) events); [now rewrite Hnil | reflexivity].
Qed.

(** The sentences of a narrative, group by group. *)
Lemma narrative_parts_groups (events : list LifeEvent) (name description : option string) :
  narrative_parts events name description =
    (biography name description
     ++ education_sentence (edu_parts (filter (has_type "education") events))
     ++ employment_sentence (emp_parts (filter (has_type "employment") events))
     ++ award_sentence (filter (has_type "award") events)
     ++ collect other_sentence (group_events events))%list.
Proof.
  unfold narrative_parts. cbv zeta.
  rewrite (for_group_filter events "education"
             (fun es => education_sentence (edu_parts es))) by reflexivity.
  rewrite (for_group_filter events "employment"
             (fun es => employment_sentence (emp_parts es))) by reflexivity.
  rewrite (for_group_filter events "award" award_sentence) by reflexivity.
  reflexivity.
Qed.

(** ** The stable sort by start date *)

Lemma insert_by_date_perm (e : LifeEvent) (l : list LifeEvent) :
  Permutation (insert_by_date e l) (e :: l).
Proof.
  induction l as [|e' l IH]; simpl; [reflexivity|].
  destruct (date_ltb (sort_key e) (sort_key e')); [reflexivity|].
  rewrite IH. apply perm_swap.
Qed.

Lemma sorted_by_start_date_perm (l : list LifeEvent) :
  Permutation (sorted_by_start_date l) l.
Proof.
  unfold sorted_by_start_date.
  assert (H : forall acc, Permutation (fold_left (fun acc e => insert_by_date e acc) l acc)
                            (acc ++ l)%list).
  { induction l as [|e l IH]; intros acc; simpl.
    - now rewrite app_nil_r.
    - rewrite IH, insert_by_date_perm. apply Permutation_middle. }
  exact (H []).
Qed.

Lemma sorted_by_start_date_In (e : LifeEvent) (l : list LifeEvent) :
  In e (sorted_by_start_date l) <-> In e l.
Proof.
  split; apply Permutation_in;
    [apply sorted_by_start_date_perm | symmetry; apply sorted_by_start_date_perm].
Qed.

Lemma sorted_by_start_date_length (l : list LifeEvent) :
  List.length (sorted_by_start_date l) = List.length l.
Proof. apply Permutation_length, sorted_by_start_date_perm. Qed.

Lemma sorted_by_start_date_Forall (P : LifeEvent -> Prop) (l : list LifeEvent) :
  Forall P l -> Forall P (sorted_by_start_date l).
Proof.
  rewrite !Forall_forall. intros H e He. apply H, sorted_by_start_date_In, He.
Qed.

(** ** No sentence is white space *)

Ltac not_space :=
  repeat rewrite all_space_app; simpl; repeat rewrite andb_false_r; reflexivity.

Lemma biography_not_space (name description : option string) :
  Forall (fun s => all_space s = false) (biography name description).
Proof.
  unfold biography.
  destruct (truthy name || truthy description); [|constructor].
  destruct (truthy description); repeat constructor; not_space.
Qed.

Lemma education_sentence_not_space (parts : list string) :
  Forall (fun s => all_space s = false) (education_sentence parts).
Proof.
  unfold education_sentence. destruct parts as [|a l]; [constructor|].
  destruct (List.length (a :: l) =? 1)%nat; repeat constructor.
Qed.

Lemma employment_sentence_not_space (parts : list string) :
  Forall (fun s => all_space s = false) (employment_sentence parts).
Proof.
  unfold employment_sentence. destruct parts as [|a l]; [constructor|].
  destruct (List.length (a :: l) <=? 3)%nat; repeat constructor.
Qed.

Lemma award_sentence_not_space (award_events : list LifeEvent) :
  Forall (fun s => all_space s = false) (award_sentence award_events).
Proof.
  unfold award_sentence.
  destruct (List.length award_events <=? 5)%nat; [|repeat constructor].
  destruct (collect award_name award_events); repeat constructor.
Qed.

Lemma other_sentences_not_space (g : groups) :
  Forall (fun s => all_space s = false) (collect other_sentence g).
Proof.
  apply Forall_forall. intros s Hs. apply collect_In in Hs.
  destruct Hs as ([t es] & _ & H). unfold other_sentence in H.
  destruct (is_other_type t); [|discriminate].
  destruct es; [discriminate|]. injection H as <-. reflexivity.
Qed.

Lemma narrative_parts_not_space (events : list LifeEvent) (name description : option string) :
  Forall (fun s => all_space s = false) (narrative_parts events name description).
Proof.
  rewrite narrative_parts_groups.
  repeat (apply Forall_app; split).
  - apply biography_not_space.
  - apply education_sentence_not_space.
  - apply employment_sentence_not_space.
  - apply award_sentence_not_space.
  - apply other_sentences_not_space.
Qed.

(** The fallback replaces the narrative exactly when no sentence was emitted. *)
Lemma narrative_strip_empty_iff (events : list LifeEvent) (name description : option string) :
  strip (join " " (narrative_parts events name description)) = "" <->
  narrative_parts events name description = [].
Proof.
  split.
  - intros H. apply strip_empty_iff in H.
    destruct (narrative_parts events name description) as [|a l] eqn:E; [reflexivity|].
    rewrite all_space_join in H; [discriminate | congruence |].
    rewrite <- E. apply narrative_parts_not_space.
  - intros ->. reflexivity.
Qed.

Lemma create_narrative_emitted (events : list LifeEvent) (name description : option string) :
  narrative_parts events name description <> [] ->
  create_narrative_from_events events name description =
    join " " (narrative_parts events name description).
Proof.
  intros H. unfold create_narrative_from_events. cbv zeta.
  destruct (String.eqb_spec (strip (join " " (narrative_parts events name description))) "")
    as [E|E]; [|reflexivity].
  apply narrative_strip_empty_iff in E. contradiction.
Qed.

(** An emitted sentence is part of the returned narrative. *)
Lemma emitted_contains (events : list LifeEvent) (name description : option string)
    (s : string) :
  In s (narrative_parts events name description) ->
  contains s (create_narrative_from_events events name description).
Proof.
  intros H. rewrite create_narrative_emitted.
  - now apply contains_join.
  - intros E. rewrite E in H. destruct H.
Qed.

End NarrativeFacts.

(* ================================================================== *)
(** * Narrative synthesis: the claims *)
(* ================================================================== *)

Module Narrative.
Import Py PyFacts NarrativeFacts.

Lemma edu_label_titled (e : LifeEvent) :
  edu_label e = if titled e then Some (titled_label e) else None.
Proof.
  unfold edu_label, titled, titled_label.
  destruct (truthy (event_title e)), (truthy (organization e)); reflexivity.
Qed.

Lemma edu_parts_In (edu_events : list LifeEvent) (l : string) :
  In l (edu_parts edu_events) <->
  exists e, In e edu_events /\ titled e = true /\ l = titled_label e.
Proof.
  unfold edu_parts. rewrite collect_In. split.
  - intros (e & He & Hl). rewrite edu_label_titled in Hl.
    exists e. rewrite sorted_by_start_date_In in He.
    destruct (titled e); [|discriminate]. injection Hl as <-. auto.
  - intros (e & He & Ht & ->). exists e. rewrite sorted_by_start_date_In.
    split; [exact He|]. now rewrite edu_label_titled, Ht.
Qed.

Lemma edu_parts_length (edu_events : list LifeEvent) :
  List.length (edu_parts edu_events) = List.length (filter titled edu_events).
Proof.
  unfold edu_parts.
  rewrite (collect_filter_map edu_label titled titled_label) by apply edu_label_titled.
  rewrite length_map. apply Permutation_length.
  (* filtering commutes with the permutation the sort performs *)
  assert (H : forall l l' : list LifeEvent, Permutation l l' ->
              Permutation (filter titled l) (filter titled l')).
  { induction 1; simpl; repeat destruct (titled _); eauto using Permutation. }
  apply H, sorted_by_start_date_perm.
Qed.

Lemma education_sentence_single (item : string) :
  education_sentence [item] = ["Studied " ++ item ++ "."].
Proof. reflexivity. Qed.

Lemma education_sentence_many (items : list string) (item : string) :
  items <> [] ->
  education_sentence (items ++ [item])%list =
    ["Educational background includes " ++ (join ", " items ++ " and " ++ item) ++ "."].
Proof.
  intros Hne. unfold education_sentence.
  destruct (items ++ [item])%list as [|a l] eqn:E.
  { destruct items; discriminate. }
  rewrite <- E. clear E a l.
  assert (Hlen : (List.length (items ++ [item]) =? 1)%nat = false).
  { apply Nat.eqb_neq. rewrite length_app. simpl.
    destruct items; [congruence | simpl; lia]. }
  rewrite Hlen. cbv zeta. now rewrite slice_to_minus_one, last_last.
Qed.

Lemma education_in_parts (events : list LifeEvent) (name description : option string)
    (s : string) :
  In s (education_sentence (edu_parts (filter (has_type "education") events))) ->
  In s (narrative_parts events name description).
Proof.
  intros H. rewrite narrative_parts_groups.
  apply in_or_app. right. apply in_or_app. now left.
Qed.

Lemma employment_in_parts (events : list LifeEvent) (name description : option string)
    (s : string) :
  In s (employment_sentence (emp_parts (filter (has_type "employment") events))) ->
  In s (narrative_parts events name description).
Proof.
  intros H. rewrite narrative_parts_groups.
  apply in_or_app. right. apply in_or_app. right. apply in_or_app. now left.
Qed.

Lemma award_in_parts (events : list LifeEvent) (name description : option string)
    (s : string) :
  In s (award_sentence (filter (has_type "award") events)) ->
  In s (narrative_parts events name description).
Proof.
  intros H. rewrite narrative_parts_groups.
  apply in_or_app. right. apply in_or_app. right.
  apply in_or_app. right. apply in_or_app. now left.
Qed.

(** C3, as stated, fails: an education event with an organization and no
    title contributes no label, and the narrative falls back. *)
Lemma education_org_only_counterexample :
  ~ labels_as_specified [org_only_event] /\
  edu_label_as_specified org_only_event = Some "MIT" /\
  edu_parts [org_only_event] = [] /\
  create_narrative_from_events [org_only_event] None None = fallback_narrative.
Proof.
  split; [|repeat split].
  intros H. exact (H org_only_event "MIT" (or_introl eq_refl) eq_refl).
Qed.

(** C3, amended: the labels of the education group are those of its
    events with a non-empty title, in order of start date:
    "{title} from {organization}" when the organization is non-empty too
    and the title alone otherwise (an event without a title contributes
    none); one label yields "Studied {item}." and several yield
    "Educational background includes {item1}, ... and {itemN}.", emitted
    as a sentence of the narrative. *)
Theorem education_sentence_spec (events : list LifeEvent) (name description : option string) :
  let edu_events := filter (has_type "education") events in
  let labels := edu_parts edu_events in
  let narrative := create_narrative_from_events events name description in
  labels = map titled_label (filter titled (sorted_by_start_date edu_events)) /\
  (forall l, In l labels <->
     exists e, In e edu_events /\ titled e = true /\ l = titled_label e) /\
  List.length labels = List.length (filter titled edu_events) /\
  (forall item, labels = [item] ->
     In ("Studied " ++ item ++ ".") (narrative_parts events name description) /\
     contains ("Studied " ++ item ++ ".") narrative) /\
  (forall items item, items <> [] -> labels = (items ++ [item])%list ->
     let s := "Educational background includes "
              ++ join ", " items ++ " and " ++ item ++ "." in
     In s (narrative_parts events name description) /\ contains s narrative).
Proof.
  intros edu_events labels narrative. split; [|split; [|split; [|split]]].
  - apply collect_filter_map, edu_label_titled.
  - intros l. apply edu_parts_In.
  - apply edu_parts_length.
  - intros item E.
    assert (H : In ("Studied " ++ item ++ ".") (narrative_parts events name description)).
    { apply education_in_parts. fold edu_events. fold labels. rewrite E.
      rewrite education_sentence_single. now left. }
    split; [exact H | now apply emitted_contains].
  - intros items item Hne E s.
    assert (H : In s (narrative_parts events name description)).
    { apply education_in_parts. fold edu_events. fold labels. rewrite E.
      rewrite education_sentence_many by exact Hne. left.
      unfold s. now rewrite !append_assoc. }
    split; [exact H | now apply emitted_contains].
Qed.

Lemma education_sentence_spec_witness :
  contains "Studied PhD from MIT."
    (create_narrative_from_events
       [mkEvent (Str "education") (Some "PhD") (Some "MIT") None] None None).
Proof.
  destruct (education_sentence_spec
              [mkEvent (Str "education") (Some "PhD") (Some "MIT") None] None None)
    as (_ & _ & _ & H & _).
  exact (proj2 (H "PhD from MIT" eq_refl)).
Defined.

(** C6: the narrative is never the empty string; it is the fallback
    sentence whenever the joined sentences are empty or white space, which
    is the case for no events, no name and no description. *)
Theorem narrative_never_empty (events : list LifeEvent) (name description : option string) :
  create_narrative_from_events events name description <> "" /\
  (strip (join " " (narrative_parts events name description)) = "" ->
     create_narrative_from_events events name description = fallback_narrative) /\
  (events = [] -> truthy name = false -> truthy description = false ->
     create_narrative_from_events events name description = fallback_narrative).
Proof.
  unfold create_narrative_from_events. cbv zeta. split; [|split].
  - destruct (String.eqb_spec (strip (join " " (narrative_parts events name description))) "")
      as [E|E]; [discriminate|].
    intros H. apply E. now rewrite H.
  - intros ->. reflexivity.
  - intros -> Hn Hd. unfold narrative_parts, biography. rewrite Hn, Hd. reflexivity.
Qed.

Lemma narrative_never_empty_witness :
  create_narrative_from_events [] (Some "") None = fallback_narrative.
Proof.
  destruct (narrative_never_empty [] (Some "") None) as (_ & _ & H).
  exact (H eq_refl eq_refl eq_refl).
Defined.

Lemma emp_label_some (e : LifeEvent) :
  truthy (event_title e) || truthy (organization e) = true -> emp_label e <> None.
Proof.
  unfold emp_label.
  destruct (truthy (event_title e)), (truthy (organization e)); simpl; congruence.
Qed.

(** C7, as stated, fails: four employment events without title and
    organization yield no label, and the narrative is the fallback. *)
Lemma employment_blank_counterexample :
  ~ four_events_as_specified four_blank_jobs /\
  emp_parts four_blank_jobs = [] /\
  create_narrative_from_events four_blank_jobs None None = fallback_narrative.
Proof.
  split; [|split; reflexivity].
  intros H. specialize (H eq_refl). apply contains_containsb in H.
  vm_compute in H. discriminate.
Qed.

(** C7, amended: up to three employment labels are all listed in
    "Career includes {a}, {b}, {c}."; beyond three the first three are
    listed, followed by "and {K} other positions" with K the count of the
    others; four employment events that each carry a title or an
    organization give a narrative containing "and 1 other positions". *)
Theorem employment_sentence_spec (events : list LifeEvent) (name description : option string) :
  let emp_events := filter (has_type "employment") events in
  let labels := emp_parts emp_events in
  let narrative := create_narrative_from_events events name description in
  (1 <= List.length labels <= 3 ->
     let s := "Career includes " ++ join ", " labels ++ "." in
     employment_sentence labels = [s] /\ contains s narrative) /\
  (3 < List.length labels ->
     let s := "Career includes " ++ join ", " (firstn 3 labels)
              ++ " and " ++ str_of_nat (List.length labels - 3) ++ " other positions." in
     employment_sentence labels = [s] /\ contains s narrative) /\
  (List.length emp_events = 4 ->
     Forall (fun e => truthy (event_title e) || truthy (organization e) = true) emp_events ->
     contains "and 1 other positions" narrative).
Proof.
  intros emp_events labels narrative.
  assert (Hshort : 1 <= List.length labels <= 3 ->
            employment_sentence labels = ["Career includes " ++ join ", " labels ++ "."]).
  { intros [H1 H3]. unfold employment_sentence.
    destruct labels as [|a l] eqn:E; [simpl in H1; lia|].
    apply Nat.leb_le in H3. now rewrite H3. }
  assert (Hlong : 3 < List.length labels ->
            employment_sentence labels =
              ["Career includes " ++ join ", " (firstn 3 labels)
               ++ " and " ++ str_of_nat (List.length labels - 3) ++ " other positions."]).
  { intros H3. unfold employment_sentence.
    destruct labels as [|a l] eqn:E; [simpl in H3; lia|].
    apply Nat.leb_gt in H3. rewrite H3. cbv zeta.
    rewrite (slice_to_nonneg 3). now rewrite !append_assoc. }
  assert (Hin : forall s, employment_sentence labels = [s] -> contains s narrative).
  { intros s E. apply emitted_contains, employment_in_parts.
    fold emp_events. fold labels. rewrite E. now left. }
  split; [|split].
  - intros H s. split; [now apply Hshort | now apply Hin, Hshort].
  - intros H s. split; [now apply Hlong | now apply Hin, Hlong].
  - intros Hlen Hall.
    assert (H4 : List.length labels = 4).
    { unfold labels, emp_parts. rewrite collect_length.
      - now rewrite sorted_by_start_date_length.
      - apply sorted_by_start_date_Forall.
        eapply Forall_impl; [|exact Hall]. intros e. apply emp_label_some. }
    assert (Hl : 3 < List.length labels) by lia.
    eapply contains_trans; [|apply Hin, Hlong, Hl].
    rewrite H4. apply contains_app_r, contains_app_r.
    exists " ", ".". reflexivity.
Qed.

Lemma employment_sentence_spec_witness :
  contains "and 1 other positions" (create_narrative_from_events four_jobs None None).
Proof.
  destruct (employment_sentence_spec four_jobs None None) as (_ & _ & H).
  apply H; [reflexivity | repeat constructor].
Defined.

Lemma award_names_titles (award_events : list LifeEvent) :
  collect award_name award_events =
    map (fun e => str (event_title e)) (filter titled award_events).
Proof. now apply collect_filter_map. Qed.

(** C8, as stated, fails: six award events, four of them titled, get the
    count sentence and not the list of titles; one award event without a
    title gets no award sentence at all. *)
Lemma award_list_counterexample :
  ~ award_list_as_specified six_awards /\
  create_narrative_from_events six_awards None None = "Received 6 awards and honors." /\
  ~ award_list_as_specified blank_award /\
  create_narrative_from_events blank_award None None = fallback_narrative.
Proof.
  split; [|split; [reflexivity|split; [|reflexivity]]].
  - intros H. specialize (H ltac:(simpl; lia)).
    vm_compute in H. destruct H as [H|[]]. discriminate.
  - intros H. specialize (H ltac:(simpl; lia)).
    vm_compute in H. destruct H.
Qed.

(** C8, amended: more than five award events give "Received {N} awards
    and honors." with N the number of events of the group, titled or not;
    up to five events, one at least with a non-empty title, give
    "Received awards: " followed by the non-empty titles and a full stop;
    up to five events without any title give no award sentence. *)
Theorem award_sentence_spec (events : list LifeEvent) (name description : option string) :
  let award_events := filter (has_type "award") events in
  let titles := map (fun e => str (event_title e)) (filter titled award_events) in
  let narrative := create_narrative_from_events events name description in
  (5 < List.length award_events ->
     let s := "Received " ++ str_of_nat (List.length award_events)
              ++ " awards and honors." in
     award_sentence award_events = [s] /\ contains s narrative) /\
  (List.length award_events <= 5 -> titles <> [] ->
     let s := "Received awards: " ++ join ", " titles ++ "." in
     award_sentence award_events = [s] /\ contains s narrative) /\
  (List.length award_events <= 5 -> titles = [] ->
     award_sentence award_events = []).
Proof.
  intros award_events titles narrative.
  assert (Hin : forall s, award_sentence award_events = [s] -> contains s narrative).
  { intros s E. apply emitted_contains, award_in_parts.
    fold award_events. rewrite E. now left. }
  assert (Hmany : 5 < List.length award_events ->
            award_sentence award_events =
              ["Received " ++ str_of_nat (List.length award_events) ++ " awards and honors."]).
  { intros H. unfold award_sentence. apply Nat.leb_gt in H. now rewrite H. }
  assert (Hfew : List.length award_events <= 5 ->
            award_sentence award_events =
              match titles with
              | [] => []
              | _ => ["Received awards: " ++ join ", " titles ++ "."]
              end).
  { intros H. unfold award_sentence. apply Nat.leb_le in H. rewrite H.
    cbv zeta. now rewrite award_names_titles. }
  split; [|split].
  - intros H s. split; [now apply Hmany | now apply Hin, Hmany].
  - intros H Hne s.
    assert (E : award_sentence award_events = [s]).
    { rewrite Hfew by exact H. destruct titles; [congruence | reflexivity]. }
    split; [exact E | now apply Hin].
  - intros H E. rewrite Hfew by exact H. now rewrite E.
Qed.

Lemma award_sentence_spec_witness :
  contains "Received 6 awards and honors."
    (create_narrative_from_events six_awards (Some "Ada") None).
Proof.
  destruct (award_sentence_spec six_awards (Some "Ada") None) as (H & _).
  apply H. simpl. lia.
Defined.

End Narrative.

(* ================================================================== *)
(** * Facts on binary64 comparison and arithmetic *)
(* ================================================================== *)

Module Float64.

Lemma SFcompare_key (x y : spec_float) :
  SFis_nan x = false -> SFis_nan y = false ->
  (SFcompare x y = Some Lt <-> klt (SFkey x) (SFkey y)) /\
  (SFcompare x y = Some Gt <-> klt (SFkey y) (SFkey x)) /\
  (SFcompare x y = Some Eq <-> SFkey x = SFkey y).
Proof.
  intros Hx Hy.
  destruct x as [sx|sx| |sx mx ex], y as [sy|sy| |sy my ey];
    try discriminate; try destruct sx; try destruct sy; cbn;
    try (repeat split; intros; try discriminate; try reflexivity; try lia; try congruence; fail).
  all: change (Pos.compare_cont Eq mx my) with (Pos.compare mx my).
  all: destruct (Z.compare_spec ex ey); destruct (Pos.compare_spec mx my); cbn;
    repeat split; intros H'; try discriminate; try reflexivity; try lia;
    try (injection H'; intros; lia); try (subst; reflexivity); try (f_equal; lia).
Qed.

Lemma SFcompare_nan (x y : spec_float) :
  SFis_nan x = true \/ SFis_nan y = true -> SFcompare x y = None.
Proof.
  intros [H|H]; destruct x as [?|?| |? ? ?], y as [?|?| |? ? ?]; try discriminate; reflexivity.
Qed.

Lemma klt_irrefl (a : key) : ~ klt a a.
Proof. destruct a as [[a1 a2] a3]; unfold klt; lia. Qed.

Lemma is_nan_spec (x : float) : PrimFloat.is_nan x = SFis_nan (Prim2SF x).
Proof.
  unfold PrimFloat.is_nan. rewrite eqb_spec. unfold SFeqb.
  destruct (SFis_nan (Prim2SF x)) eqn:E.
  - rewrite SFcompare_nan by auto. reflexivity.
  - destruct (SFcompare_key _ _ E E) as (_ & _ & H).
    rewrite (proj2 H eq_refl). reflexivity.
Qed.

Lemma ltb_key (x y : float) :
  (x <? y)%float = true <->
  PrimFloat.is_nan x = false /\ PrimFloat.is_nan y = false /\ klt (fkey x) (fkey y).
Proof.
  rewrite ltb_spec, !is_nan_spec. unfold SFltb, fkey.
  destruct (SFis_nan (Prim2SF x)) eqn:Ex.
  { rewrite SFcompare_nan by auto. split; [discriminate | intros (H & _); discriminate]. }
  destruct (SFis_nan (Prim2SF y)) eqn:Ey.
  { rewrite SFcompare_nan by auto. split; [discriminate | intros (_ & H & _); discriminate]. }
  destruct (SFcompare_key _ _ Ex Ey) as (Hlt & _ & _).
  split.
  - intros H. repeat split. apply Hlt.
    destruct (SFcompare (Prim2SF x) (Prim2SF y)) as [[ | | ]|]; try discriminate; reflexivity.
  - intros (_ & _ & H). rewrite (proj2 Hlt H). reflexivity.
Qed.

Lemma eqb_key (x y : float) :
  (x =? y)%float = true <->
  PrimFloat.is_nan x = false /\ PrimFloat.is_nan y = false /\ fkey x = fkey y.
Proof.
  rewrite eqb_spec, !is_nan_spec. unfold SFeqb, fkey.
  destruct (SFis_nan (Prim2SF x)) eqn:Ex.
  { rewrite SFcompare_nan by auto. split; [discriminate | intros (H & _); discriminate]. }
  destruct (SFis_nan (Prim2SF y)) eqn:Ey.
  { rewrite SFcompare_nan by auto. split; [discriminate | intros (_ & H & _); discriminate]. }
  destruct (SFcompare_key _ _ Ex Ey) as (_ & _ & Heq).
  split.
  - intros H. repeat split. apply Heq.
    destruct (SFcompare (Prim2SF x) (Prim2SF y)) as [[ | | ]|]; try discriminate; reflexivity.
  - intros (_ & _ & H). rewrite (proj2 Heq H). reflexivity.
Qed.

Lemma leb_key (x y : float) :
  (x <=? y)%float = true <->
  PrimFloat.is_nan x = false /\ PrimFloat.is_nan y = false /\
  (klt (fkey x) (fkey y) \/ fkey x = fkey y).
Proof.
  rewrite leb_spec, !is_nan_spec. unfold SFleb, fkey.
  destruct (SFis_nan (Prim2SF x)) eqn:Ex.
  { rewrite SFcompare_nan by auto. split; [discriminate | intros (H & _); discriminate]. }
  destruct (SFis_nan (Prim2SF y)) eqn:Ey.
  { rewrite SFcompare_nan by auto. split; [discriminate | intros (_ & H & _); discriminate]. }
  destruct (SFcompare_key _ _ Ex Ey) as (Hlt & Hgt & Heq).
  split.
  - intros H. repeat split.
    destruct (SFcompare (Prim2SF x) (Prim2SF y)) as [[ | | ]|]; try discriminate.
    + right. apply Heq. reflexivity.
    + left. apply Hlt. reflexivity.
  - intros (_ & _ & [H|H]).
    + rewrite (proj2 Hlt H). reflexivity.
    + rewrite (proj2 Heq H). reflexivity.
Qed.

(** Trichotomy of the keys: the order on keys is total. *)
Lemma klt_total (a b : key) : klt a b \/ a = b \/ klt b a.
Proof.
  destruct a as [[a1 a2] a3], b as [[b1 b2] b3]. unfold klt.
  destruct (Z.lt_trichotomy a1 b1) as [?|[?|?]]; [lia| |lia].
  destruct (Z.lt_trichotomy a2 b2) as [?|[?|?]]; [lia| |lia].
  destruct (Z.lt_trichotomy a3 b3) as [?|[?|?]]; [lia| |lia].
  right; left; congruence.
Qed.

Lemma klt_trans (a b c : key) : klt a b -> klt b c -> klt a c.
Proof.
  destruct a as [[a1 a2] a3], b as [[b1 b2] b3], c as [[c1 c2] c3]. unfold klt. lia.
Qed.

Lemma klt_asym (a b : key) : klt a b -> ~ klt b a.
Proof. intros H H'. exact (klt_irrefl _ (klt_trans _ _ _ H H')). Qed.

Lemma is_finite_spec (x : float) :
  PrimFloat.is_finite x = true ->
  exists s, Prim2SF x = S754_zero s \/ exists m e, Prim2SF x = S754_finite s m e.
Proof.
  unfold PrimFloat.is_finite, PrimFloat.is_infinity. intros H.
  apply negb_true_iff, orb_false_iff in H. destruct H as [Hn Hi].
  rewrite is_nan_spec in Hn. rewrite eqb_spec, abs_spec in Hi.
  destruct (Prim2SF x) as [s|s| |s m e]; try discriminate.
  - exists s. now left.
  - exists s. right. now exists m, e.
Qed.

Lemma sub_diag (x : float) : PrimFloat.is_finite x = true -> (x - x)%float = 0%float.
Proof.
  intros H. apply Prim2SF_inj. rewrite sub_spec.
  destruct (is_finite_spec x H) as [s [E | (m & e & E)]]; rewrite E.
  - destruct s; reflexivity.
  - unfold SF64sub, SFsub. rewrite Z.sub_diag. reflexivity.
Qed.

Lemma binary_round_aux_not_neg (mx ex : Z) (lx : location) :
  SFltb (binary_round_aux prec emax false mx ex lx) (S754_zero false) = false.
Proof.
  unfold binary_round_aux.
  destruct (shr_fexp prec emax mx ex lx) as [m1 e1].
  destruct (shr_fexp prec emax _ e1 loc_Exact) as [m2 e2].
  destruct (shr_m m2); [reflexivity | | reflexivity].
  destruct (Z.leb e2 _); reflexivity.
Qed.

Lemma sqrt_not_neg (x : float) : (sqrt x <? 0)%float = false.
Proof.
  rewrite ltb_spec, sqrt_spec. change (Prim2SF 0) with (S754_zero false).
  unfold SF64sqrt, SFsqrt.
  destruct (Prim2SF x) as [s|s| |s m e]; try destruct s; try reflexivity.
  destruct (SFsqrt_core_binary prec emax (Z.pos m) e) as [[mz ez] lz].
  apply binary_round_aux_not_neg.
Qed.

(** ** The order of [<], [<=] and [==] on floats *)

Lemma ltb_irrefl (a : float) : (a <? a)%float = false.
Proof.
  destruct (a <? a)%float eqn:E; [|reflexivity].
  apply ltb_key in E. destruct E as (_ & _ & E). now apply klt_irrefl in E.
Qed.

Lemma ltb_trans (a b c : float) :
  (a <? b)%float = true -> (b <? c)%float = true -> (a <? c)%float = true.
Proof.
  rewrite !ltb_key. intros (Ha & _ & H1) (_ & Hc & H2).
  repeat split; try assumption. eapply klt_trans; eassumption.
Qed.

Lemma leb_ltb_trans (a b c : float) :
  (a <=? b)%float = true -> (b <? c)%float = true -> (a <? c)%float = true.
Proof.
  rewrite leb_key, !ltb_key. intros (Ha & _ & [H1|H1]) (_ & Hc & H2);
    repeat split; try assumption.
  - eapply klt_trans; eassumption.
  - now rewrite H1.
Qed.

(** Among numbers, "not less" is "greater or equal". *)
Lemma ltb_false_leb (a b : float) :
  is_nan a = false -> is_nan b = false ->
  (a <? b)%float = false -> (b <=? a)%float = true.
Proof.
  intros Ha Hb H. apply leb_key. repeat split; try assumption.
  destruct (klt_total (fkey a) (fkey b)) as [E|[E|E]]; auto.
  assert (H' : (a <? b)%float = true) by (apply ltb_key; auto). congruence.
Qed.

Lemma leb_false_ltb (a b : float) :
  is_nan a = false -> is_nan b = false ->
  (a <=? b)%float = false -> (b <? a)%float = true.
Proof.
  intros Ha Hb H. apply ltb_key. repeat split; try assumption.
  destruct (klt_total (fkey a) (fkey b)) as [E|[E|E]]; auto;
    assert (H' : (a <=? b)%float = true) by (apply leb_key; auto); congruence.
Qed.

Lemma ltb_not_nan (a b : float) :
  (a <? b)%float = true -> is_nan a = false /\ is_nan b = false.
Proof. rewrite ltb_key. tauto. Qed.

(** A number that is neither below nor above another equals it. *)
Lemma not_ltb_eqb (a b : float) :
  is_nan a = false -> is_nan b = false ->
  (a <? b)%float = false -> (b <? a)%float = false -> (a =? b)%float = true.
Proof.
  intros Ha Hb H1 H2. apply eqb_key. repeat split; try assumption.
  destruct (klt_total (fkey a) (fkey b)) as [E|[E|E]]; auto.
  - assert (H' : (a <? b)%float = true) by (apply ltb_key; auto). congruence.
  - assert (H' : (b <? a)%float = true) by (apply ltb_key; auto). congruence.
Qed.

Lemma eqb_sym (a b : float) : (a =? b)%float = (b =? a)%float.
Proof.
  destruct (a =? b)%float eqn:E1, (b =? a)%float eqn:E2; try reflexivity.
  - apply eqb_key in E1. destruct E1 as (? & ? & ?).
    assert ((b =? a)%float = true) by (apply eqb_key; auto). congruence.
  - apply eqb_key in E2. destruct E2 as (? & ? & ?).
    assert ((a =? b)%float = true) by (apply eqb_key; auto). congruence.
Qed.

End Float64.

(* ================================================================== *)
(** * Facts on the NumPy operations *)
(* ================================================================== *)

Module NpFacts.
Import Float64.


(** A norm is never below zero. *)
Lemma norm_not_neg (v : Np.array3) : (Np.norm v <? 0)%float = false.
Proof. destruct v as [[v0 v1] v2]. apply sqrt_not_neg. Qed.

Lemma norm_1d_sub3_diag (dot : Np.array3 -> Np.array3 -> float) (v : Np.array3) :
  Np.dot_zero dot -> Np.is_finite3 v = true -> Np.norm_1d dot (Np.sub3 v v) = 0%float.
Proof.
  intros Hdot Hv. destruct v as [[v0 v1] v2]. simpl in Hv.
  apply andb_prop in Hv. destruct Hv as [Hv H2].
  apply andb_prop in Hv. destruct Hv as [H0 H1].
  unfold Np.sub3, Np.norm_1d. rewrite !sub_diag by assumption.
  unfold Np.dot_zero in Hdot. rewrite Hdot. reflexivity.
Qed.

Lemma norm_1d_not_neg (dot : Np.array3 -> Np.array3 -> float) (v : Np.array3) :
  (Np.norm_1d dot v <? 0)%float = false.
Proof. apply sqrt_not_neg. Qed.

Lemma dot_rounded_zero : Np.dot_zero Np.dot_rounded.
Proof. reflexivity. Qed.

Lemma dot_fused_zero : Np.dot_zero Np.dot_fused.
Proof. reflexivity. Qed.

(** ** NumPy's sort order is a strict weak order *)

Lemma lt_spec (a b : float) :
  Np.lt a b = true <->
  is_nan a = false /\ (is_nan b = true \/ klt (fkey a) (fkey b)).
Proof.
  unfold Np.lt. rewrite orb_true_iff, andb_true_iff, negb_true_iff, ltb_key.
  destruct (is_nan a), (is_nan b); intuition congruence.
Qed.

Lemma lt_irrefl (a : float) : Np.lt a a = false.
Proof.
  destruct (Np.lt a a) eqn:E; [|reflexivity].
  apply lt_spec in E. destruct E as (Ha & [Hn | Hk]); [congruence|].
  now apply klt_irrefl in Hk.
Qed.

Lemma lt_trans (a b c : float) :
  Np.lt a b = true -> Np.lt b c = true -> Np.lt a c = true.
Proof.
  rewrite !lt_spec. intros (Ha & H1) (Hb & H2). split; [exact Ha|].
  destruct H1 as [H1|H1]; [congruence|].
  destruct H2 as [H2|H2]; [now left | right; eapply klt_trans; eassumption].
Qed.

(** "Not after" is transitive. *)
Lemma le_trans (a b c : float) :
  Np.lt b a = false -> Np.lt c b = false -> Np.lt c a = false.
Proof.
  intros H1 H2. destruct (Np.lt c a) eqn:E; [|reflexivity].
  apply lt_spec in E. destruct E as (Hc & E).
  assert (Hb : is_nan b = false).
  { destruct (is_nan b) eqn:Hb; [|reflexivity].
    assert (Np.lt c b = true) by (apply lt_spec; auto). congruence. }
  destruct E as [Ha | Hk].
  - assert (Np.lt b a = true) by (apply lt_spec; auto). congruence.
  - destruct (klt_total (fkey b) (fkey a)) as [E|[E|E]].
    + assert (Np.lt b a = true) by (apply lt_spec; auto). congruence.
    + assert (Np.lt c b = true) by (apply lt_spec; rewrite E; auto). congruence.
    + assert (Np.lt c b = true).
      { apply lt_spec. split; [exact Hc|]. right. eapply klt_trans; eassumption. }
      congruence.
Qed.

(** The order is total: of two floats one is not after the other. *)
Lemma lt_asym (a b : float) : Np.lt a b = true -> Np.lt b a = false.
Proof.
  intros H. destruct (Np.lt b a) eqn:E; [|reflexivity].
  pose proof (lt_trans _ _ _ H E) as H'. now rewrite lt_irrefl in H'.
Qed.

End NpFacts.

(* ================================================================== *)
(** * Nearest cluster: the claims *)
(* ================================================================== *)

Module NearestCluster.
Import Float64 NpFacts.

Lemma nth_error_snoc {A : Type} (l : list A) (a : A) (j : nat) (b : A) :
  nth_error (l ++ [a]) j = Some b ->
  (j < List.length l /\ nth_error l j = Some b) \/ (j = List.length l /\ b = a).
Proof.
  intros H. destruct (Nat.lt_ge_cases j (List.length l)) as [Hlt|Hge].
  - left. split; [exact Hlt|]. now rewrite nth_error_app1 in H.
  - right. rewrite nth_error_app2 in H by exact Hge.
    destruct (j - List.length l) as [|n] eqn:E; simpl in H.
    + split; [lia | congruence].
    + destruct n; discriminate.
Qed.

Lemma scanned_step (dot : Np.array3 -> Np.array3 -> float)
    (p : Np.array3) (l : list ClusterInfo) (c : ClusterInfo)
    (st : float * option ClusterInfo) :
  scanned dot p l st -> scanned dot p (l ++ [c]) (nearest_step dot p st c).
Proof.
  destruct st as [m best]. unfold scanned, nearest_step. simpl.
  fold (dist dot p c).
  destruct best as [b|].
  - intros (-> & Hfin & i & Hi & Hmin & Hfirst).
    destruct (dist dot p c <? dist dot p b)%float eqn:E; simpl.
    + split; [reflexivity|]. split; [eapply ltb_trans; eassumption|].
      exists (List.length l). split; [|split].
      * now rewrite nth_error_app2, Nat.sub_diag by lia.
      * intros c' Hc'. apply in_app_or in Hc'. destruct Hc' as [Hc'|[<-|[]]].
        -- destruct (dist dot p c' <? dist dot p c)%float eqn:E'; [|reflexivity].
           rewrite <- (Hmin c' Hc'). symmetry. eapply ltb_trans; eassumption.
        -- apply ltb_irrefl.
      * intros j c' Hj Hc'. rewrite nth_error_app1 in Hc' by exact Hj.
        destruct (dist dot p c' <=? dist dot p c)%float eqn:E'; [|reflexivity].
        rewrite <- (Hmin c' (nth_error_In _ _ Hc')). symmetry.
        eapply leb_ltb_trans; eassumption.
    + split; [reflexivity|]. split; [exact Hfin|].
      exists i. split; [|split].
      * rewrite nth_error_app1; [exact Hi|]. apply nth_error_Some. congruence.
      * intros c' Hc'. apply in_app_or in Hc'. destruct Hc' as [Hc'|[<-|[]]]; auto.
      * intros j c' Hj Hc'. apply Hfirst with (j := j); [exact Hj|].
        assert (Hil : i < List.length l) by (apply nth_error_Some; congruence).
        rewrite nth_error_app1 in Hc' by lia. exact Hc'.
  - intros (-> & Hnone).
    destruct (dist dot p c <? infinity)%float eqn:E; simpl.
    + split; [reflexivity|]. split; [exact E|].
      exists (List.length l). split; [|split].
      * now rewrite nth_error_app2, Nat.sub_diag by lia.
      * intros c' Hc'. apply in_app_or in Hc'. destruct Hc' as [Hc'|[<-|[]]].
        -- destruct (dist dot p c' <? dist dot p c)%float eqn:E'; [|reflexivity].
           rewrite <- (Hnone c' Hc'). symmetry. eapply ltb_trans; eassumption.
        -- apply ltb_irrefl.
      * intros j c' Hj Hc'. rewrite nth_error_app1 in Hc' by exact Hj.
        destruct (dist dot p c' <=? dist dot p c)%float eqn:E'; [|reflexivity].
        rewrite <- (Hnone c' (nth_error_In _ _ Hc')). symmetry.
        eapply leb_ltb_trans; eassumption.
    + split; [reflexivity|].
      intros c' Hc'. apply in_app_or in Hc'. destruct Hc' as [Hc'|[<-|[]]]; auto.
Qed.

Lemma scanned_all (dot : Np.array3 -> Np.array3 -> float) (p : Np.array3) (l : list ClusterInfo) :
  scanned dot p l (fold_left (nearest_step dot p) l (infinity, None)).
Proof.
  induction l as [|c l IH] using rev_ind.
  - simpl. split; [reflexivity | intros c []].
  - rewrite fold_left_app. simpl. now apply scanned_step.
Qed.

(** The rounding of the dot product decides a near tie: with every
    product rounded the two clusters are at the same distance from the
    origin and the scan returns the first; with fused multiply-add the
    second is closer by one unit in the last place and is returned. *)
Lemma find_nearest_cluster_near_tie :
  (dist Np.dot_rounded origin (nth 0 near_tie_clusters origin_cluster)
     =? dist Np.dot_rounded origin (nth 1 near_tie_clusters origin_cluster))%float = true /\
  find_nearest_cluster Np.dot_rounded origin near_tie_clusters
    = nth_error near_tie_clusters 0 /\
  (dist Np.dot_fused origin (nth 1 near_tie_clusters origin_cluster)
     <? dist Np.dot_fused origin (nth 0 near_tie_clusters origin_cluster))%float = true /\
  find_nearest_cluster Np.dot_fused origin near_tie_clusters
    = nth_error near_tie_clusters 1.
Proof. repeat split; vm_compute; reflexivity. Qed.

(** C5, as stated, fails: on a non-empty sequence whose only distance
    overflows to infinity, or is NaN, no descriptor is returned. *)
Lemma find_nearest_cluster_overflow_counterexample :
  [origin_cluster] <> [] /\
  dist Np.dot_rounded far_point origin_cluster = infinity /\
  find_nearest_cluster Np.dot_rounded far_point [origin_cluster] = None /\
  dist Np.dot_rounded nan_point origin_cluster = nan /\
  find_nearest_cluster Np.dot_rounded nan_point [origin_cluster] = None.
Proof. repeat split. discriminate. Qed.

(** C5, amended: with the distances as [np.linalg.norm] computes them,
    whatever its dot product rounds: when some descriptor is at a distance
    below infinity (a float that is not NaN and did not overflow), the
    scan returns a descriptor at such a distance that no descriptor is
    closer than, and every earlier descriptor is strictly farther than (or
    at a NaN distance): the first one of least distance.  A finite point
    equal to the centroid of the only descriptor at distance 0 gets that
    descriptor, the dot product of the zero vector being 0.  When no
    distance is below infinity nothing is returned. *)
Theorem find_nearest_cluster_spec (dot : Np.array3 -> Np.array3 -> float)
    (p : Np.array3) (clusters : list ClusterInfo) :
  (Exists (fun c => (dist dot p c <? infinity)%float = true) clusters ->
     exists i c,
       find_nearest_cluster dot p clusters = Some c /\
       nth_error clusters i = Some c /\
       (dist dot p c <? infinity)%float = true /\
       (forall c', In c' clusters ->
          is_nan (dist dot p c') = true \/ (dist dot p c <=? dist dot p c')%float = true) /\
       (forall j c', j < i -> nth_error clusters j = Some c' ->
          is_nan (dist dot p c') = true \/ (dist dot p c <? dist dot p c')%float = true)) /\
  (Np.dot_zero dot ->
   forall i c,
     nth_error clusters i = Some c ->
     Np.is_finite3 p = true -> cluster_center c = p ->
     (forall j c', j <> i -> nth_error clusters j = Some c' ->
        (dist dot p c' =? 0)%float = false) ->
     find_nearest_cluster dot p clusters = Some c) /\
  ((forall c, In c clusters -> (dist dot p c <? infinity)%float = false) ->
     find_nearest_cluster dot p clusters = None).
Proof.
  pose proof (scanned_all dot p clusters) as H.
  unfold find_nearest_cluster.
  destruct (fold_left (nearest_step dot p) clusters (infinity, None)) as [m best].
  unfold scanned in H. simpl in *.
  assert (Hsome : Exists (fun c => (dist dot p c <? infinity)%float = true) clusters ->
            exists i c, best = Some c /\ nth_error clusters i = Some c /\
              (dist dot p c <? infinity)%float = true /\
              (forall c', In c' clusters -> (dist dot p c' <? dist dot p c)%float = false) /\
              (forall j c', j < i -> nth_error clusters j = Some c' ->
                 (dist dot p c' <=? dist dot p c)%float = false)).
  { intros Hex. destruct best as [b|].
    - destruct H as (_ & Hfin & i & Hi & Hmin & Hfirst). exists i, b. auto.
    - destruct H as (_ & Hnone). apply Exists_exists in Hex.
      destruct Hex as (c & Hc & E). rewrite (Hnone c Hc) in E. discriminate. }
  split; [|split].
  - intros Hex. destruct (Hsome Hex) as (i & c & -> & Hi & Hfin & Hmin & Hfirst).
    exists i, c. repeat split; try assumption.
    + intros c' Hc'. destruct (is_nan (dist dot p c')) eqn:En; [now left | right].
      apply ltb_false_leb; auto. now apply ltb_not_nan in Hfin.
    + intros j c' Hj Hc'. destruct (is_nan (dist dot p c')) eqn:En; [now left | right].
      apply leb_false_ltb; eauto. now apply ltb_not_nan in Hfin.
  - intros Hdot i c Hi Hp Hc Huniq.
    assert (Hd : dist dot p c = 0%float).
    { unfold dist. rewrite Hc. now apply norm_1d_sub3_diag. }
    destruct Hsome as (i' & c' & -> & Hi' & Hfin & Hmin & _).
    { apply Exists_exists. exists c. split; [eapply nth_error_In; eassumption|].
      now rewrite Hd. }
    destruct (Nat.eq_dec i' i) as [->|Hne]; [congruence|].
    specialize (Huniq i' c' Hne Hi').
    specialize (Hmin c (nth_error_In _ _ Hi)). rewrite Hd in Hmin.
    rewrite not_ltb_eqb in Huniq; try discriminate; try assumption.
    + now apply ltb_not_nan in Hfin.
    + reflexivity.
    + apply norm_1d_not_neg.
  - intros Hnone. destruct best as [b|]; [|reflexivity].
    destruct H as (_ & Hfin & i & Hi & _).
    rewrite (Hnone b (nth_error_In _ _ Hi)) in Hfin. discriminate.
Qed.

Lemma find_nearest_cluster_spec_witness :
  (exists i c,
     find_nearest_cluster Np.dot_rounded (0, 0, 0)%float three_clusters = Some c /\
     nth_error three_clusters i = Some c /\ cluster_id c = 2%Z) /\
  find_nearest_cluster Np.dot_rounded (1, 0, 0)%float three_clusters
    = Some (mkCluster 3 "tie" (mkCoord 1 0 0)).
Proof.
  split.
  - destruct (find_nearest_cluster_spec Np.dot_rounded (0, 0, 0)%float three_clusters)
      as (H & _).
    destruct H as (i & c & Hc & Hi & _).
    + apply Exists_cons_hd. reflexivity.
    + exists i, c. split; [exact Hc|]. split; [exact Hi|].
      vm_compute in Hc. now injection Hc as <-.
  - destruct (find_nearest_cluster_spec Np.dot_rounded (1, 0, 0)%float three_clusters)
      as (_ & H & _).
    apply (H dot_rounded_zero 2); try reflexivity.
    intros j c' Hj Hc'.
    destruct j as [|[|[|j]]]; [| |congruence|destruct j; discriminate];
      injection Hc' as <-; reflexivity.
Defined.

(** C10: on an empty sequence of clusters the scan returns [None]. *)
Theorem find_nearest_cluster_empty (dot : Np.array3 -> Np.array3 -> float) (p : Np.array3) :
  find_nearest_cluster dot p [] = None.
Proof. reflexivity. Qed.

End NearestCluster.

(* ================================================================== *)
(** * Facts on argsort and on slices *)
(* ================================================================== *)

Module ArgsortFacts.
Import Float64 NpFacts.

Lemma insert_index_perm (a : list float) (i : nat) (l : list nat) :
  Permutation (Np.insert_index a i l) (i :: l).
Proof.
  induction l as [|j l IH]; simpl; [reflexivity|].
  destruct (Np.lt (Np.item a i) (Np.item a j)); [reflexivity|].
  rewrite IH. apply perm_swap.
Qed.

Lemma insert_index_sorted (a : list float) (i : nat) (l : list nat) :
  StronglySorted (not_after a) l ->
  StronglySorted (not_after a) (Np.insert_index a i l).
Proof.
  induction 1 as [|j l Hs IH Hj]; simpl.
  - repeat constructor.
  - destruct (Np.lt (Np.item a i) (Np.item a j)) eqn:E.
    + constructor; [now constructor|]. constructor.
      * now apply lt_asym.
      * eapply Forall_impl; [|exact Hj]. unfold not_after. intros r Hr.
        destruct (Np.lt (Np.item a r) (Np.item a i)) eqn:E'; [|reflexivity].
        rewrite <- Hr. symmetry. eapply lt_trans; eassumption.
    + constructor; [exact IH|].
      apply Forall_forall. intros r Hr.
      apply (Permutation_in _ (insert_index_perm a i l)) in Hr.
      destruct Hr as [<- | Hr]; [exact E|].
      rewrite Forall_forall in Hj. now apply Hj.
Qed.

Lemma fold_insert_spec (a : list float) (todo acc : list nat) :
  StronglySorted (not_after a) acc ->
  let r := fold_left (fun acc i => Np.insert_index a i acc) todo acc in
  Permutation r (acc ++ todo) /\ StronglySorted (not_after a) r.
Proof.
  revert acc. induction todo as [|i todo IH]; intros acc Hs; simpl.
  - now rewrite app_nil_r.
  - destruct (IH (Np.insert_index a i acc) (insert_index_sorted a i acc Hs)) as [Hp Hs'].
    split; [|exact Hs'].
    rewrite Hp, insert_index_perm. apply Permutation_middle.
Qed.

Lemma strongly_sorted_nth (R : nat -> nat -> Prop) (l : list nat) :
  StronglySorted R l ->
  forall p q, p < q < List.length l -> R (nth p l 0) (nth q l 0).
Proof.
  induction 1 as [|j l Hs IH Hj]; intros p q [Hpq Hq]; simpl in Hq; [lia|].
  destruct q as [|q]; [lia|]. destruct p as [|p]; simpl.
  - rewrite Forall_forall in Hj. apply Hj, nth_In. lia.
  - apply IH. lia.
Qed.

(** The insertion argsort keeps NumPy's promise on every array. *)
Lemma argsort_insertion_spec (a : list float) :
  Np.is_argsort a (Np.argsort_insertion a).
Proof.
  unfold Np.is_argsort, Np.argsort_insertion.
  destruct (fold_insert_spec a (seq 0 (List.length a)) [] (SSorted_nil _)) as [Hp Hs].
  split; [exact Hp|].
  intros p q Hpq. exact (strongly_sorted_nth _ _ Hs p q Hpq).
Qed.

(** ** The insertion argsort is stable *)

Lemma insert_index_stable (a : list float) (i : nat) (l : list nat) :
  StronglySorted (stable_before a) l ->
  Forall (fun j => j < i) l ->
  StronglySorted (stable_before a) (Np.insert_index a i l).
Proof.
  induction 1 as [|j l Hs IH Hj]; intros Hlt; simpl.
  - repeat constructor.
  - inversion Hlt as [|? ? Hji Hl]; subst.
    destruct (Np.lt (Np.item a i) (Np.item a j)) eqn:E.
    + constructor; [now constructor|]. constructor.
      * split; [now apply lt_asym | congruence].
      * eapply Forall_impl; [|exact Hj]. intros r [Hr _].
        unfold not_after in Hr.
        assert (Hir : Np.lt (Np.item a i) (Np.item a r) = true).
        { destruct (Np.lt (Np.item a i) (Np.item a r)) eqn:E'; [reflexivity|].
          rewrite (le_trans _ _ _ Hr E') in E. discriminate. }
        split; [now apply lt_asym | congruence].
    + constructor; [now apply IH|].
      apply Forall_forall. intros r Hr.
      apply (Permutation_in _ (insert_index_perm a i l)) in Hr.
      destruct Hr as [<- | Hr].
      * split; [exact E | intros _; exact Hji].
      * rewrite Forall_forall in Hj. now apply Hj.
Qed.

Lemma fold_insert_stable (a : list float) (len start : nat) (acc : list nat) :
  StronglySorted (stable_before a) acc ->
  Forall (fun j => j < start) acc ->
  StronglySorted (stable_before a)
    (fold_left (fun acc i => Np.insert_index a i acc) (seq start len) acc).
Proof.
  revert start acc. induction len as [|len IH]; intros start acc Hs Hlt; simpl.
  - exact Hs.
  - apply IH; [now apply insert_index_stable|].
    apply Forall_forall. intros r Hr.
    apply (Permutation_in _ (insert_index_perm a start acc)) in Hr.
    destruct Hr as [<- | Hr]; [lia|].
    rewrite Forall_forall in Hlt. specialize (Hlt r Hr). lia.
Qed.

Lemma argsort_insertion_stable (a : list float) :
  Np.is_stable a (Np.argsort_insertion a).
Proof.
  unfold Np.is_stable, Np.argsort_insertion. intros p q Hpq.
  apply (strongly_sorted_nth (stable_before a)); [|exact Hpq].
  apply fold_insert_stable; constructor.
Qed.

(** ** Consequences of the promise *)

Lemma is_argsort_length (a : list float) (idx : list nat) :
  Np.is_argsort a idx -> List.length idx = List.length a.
Proof.
  intros [Hp _]. now rewrite (Permutation_length Hp), length_seq.
Qed.

Lemma is_argsort_In (a : list float) (idx : list nat) (i : nat) :
  Np.is_argsort a idx -> (In i idx <-> i < List.length a).
Proof.
  intros [Hp _]. split.
  - intros H. apply (Permutation_in _ Hp), in_seq in H. lia.
  - intros H. apply (Permutation_in _ (Permutation_sym Hp)), in_seq. lia.
Qed.

Lemma is_argsort_NoDup (a : list float) (idx : list nat) :
  Np.is_argsort a idx -> NoDup idx.
Proof.
  intros [Hp _]. apply (Permutation_NoDup (Permutation_sym Hp)), seq_NoDup.
Qed.

(** ** Slices *)

Lemma slice_to_firstn {A : Type} (k : Z) (l : list A) :
  Py.slice_to k l =
    firstn (if (k <? 0)%Z then List.length l - Z.to_nat (- k) else Z.to_nat k) l.
Proof.
  unfold Py.slice_to. destruct (k <? 0)%Z eqn:E; [|reflexivity].
  apply Z.ltb_lt in E. f_equal. lia.
Qed.

Lemma slice_to_length {A : Type} (k : Z) (l : list A) :
  List.length (Py.slice_to k l) =
    if (k <? 0)%Z then List.length l - Z.to_nat (- k)
    else Nat.min (Z.to_nat k) (List.length l).
Proof.
  rewrite slice_to_firstn, length_firstn.
  destruct (k <? 0)%Z; lia.
Qed.

Lemma firstn_In {A : Type} (n : nat) (l : list A) (a : A) :
  In a (firstn n l) -> In a l.
Proof.
  intros H. rewrite <- (firstn_skipn n l). apply in_or_app. now left.
Qed.

Lemma firstn_NoDup {A : Type} (n : nat) (l : list A) :
  NoDup l -> NoDup (firstn n l).
Proof.
  intros H. rewrite <- (firstn_skipn n l) in H. now apply NoDup_app_remove_r in H.
Qed.

Lemma firstn_nth {A : Type} (n : nat) (l : list A) (p : nat) (d : A) :
  p < List.length (firstn n l) -> nth p (firstn n l) d = nth p l d.
Proof.
  rewrite length_firstn, nth_firstn. intros H.
  destruct (Nat.ltb_spec p n); [reflexivity | lia].
Qed.

(** An item of [l] that is not in a prefix stands after the prefix. *)
Lemma not_in_firstn {A : Type} (n : nat) (l : list A) (a d : A) :
  In a l -> ~ In a (firstn n l) ->
  exists q, List.length (firstn n l) <= q < List.length l /\ nth q l d = a.
Proof.
  intros Hin Hout. destruct (In_nth l a d Hin) as (q & Hq & E).
  exists q. split; [|exact E]. split; [|exact Hq].
  destruct (Nat.lt_ge_cases q (List.length (firstn n l))) as [Hlt|Hge]; [|exact Hge].
  exfalso. apply Hout. rewrite <- E, <- (firstn_nth n l q d Hlt).
  now apply nth_In.
Qed.

(** A prefix of sorted indices is sorted. *)
Lemma firstn_sorted (a : list float) (idx : list nat) (n : nat) :
  Np.is_sorted_by a idx -> Np.is_sorted_by a (firstn n idx).
Proof.
  intros Hsorted p q Hpq. rewrite !firstn_nth by lia.
  apply Hsorted. rewrite length_firstn in Hpq. lia.
Qed.

(** No index left out of a prefix of sorted indices sorts before an index
    of the prefix. *)
Lemma firstn_nearest (a : list float) (idx : list nat) (n i j : nat) :
  Np.is_sorted_by a idx ->
  In i (firstn n idx) -> In j idx -> ~ In j (firstn n idx) ->
  Np.lt (Np.item a j) (Np.item a i) = false.
Proof.
  intros Hsorted Hi Hj Hout.
  destruct (In_nth _ _ 0 Hi) as (p & Hp & Ep).
  destruct (not_in_firstn _ _ j 0 Hj Hout) as (q & Hq & Eq).
  rewrite firstn_nth in Ep by exact Hp.
  rewrite <- Ep, <- Eq. apply Hsorted. lia.
Qed.

(** ** The list comprehension *)

Lemma pair_up_map (ids : list string) (ds : list float) (idx : list nat) :
  (forall i, In i idx -> i < List.length ids /\ i < List.length ds) ->
  pair_up ids ds idx = Some (map (fun i => (nth i ids ""%string, Np.item ds i)) idx).
Proof.
  induction idx as [|i idx IH]; intros H; simpl; [reflexivity|].
  rewrite IH by (intros j Hj; apply H; now right).
  destruct (H i (or_introl eq_refl)) as [Hi Hd].
  rewrite (nth_error_nth' ids ""%string Hi), (nth_error_nth' ds nan Hd).
  reflexivity.
Qed.

Lemma pair_up_length (ids : list string) (ds : list float) (idx : list nat)
    (r : list (string * float)) :
  pair_up ids ds idx = Some r -> List.length r = List.length idx.
Proof.
  revert r. induction idx as [|i idx IH]; intros r; simpl.
  - now intros [= <-].
  - destruct (nth_error ids i); [|discriminate].
    destruct (nth_error ds i); [|discriminate].
    destruct (pair_up ids ds idx); [|discriminate].
    intros [= <-]. simpl. now rewrite (IH l eq_refl).
Qed.

Lemma distances_length (p : Np.array3) (coords : list Np.array3) :
  List.length (distances p coords) = List.length coords.
Proof. apply length_map. Qed.



End ArgsortFacts.

(* ================================================================== *)
(** * Similar persons: the claims *)
(* ================================================================== *)

Module SimilarPersons.
Import Float64 NpFacts ArgsortFacts.


(** C2, as stated, fails: [k = -1] drops the last entry only. *)
Lemma find_similar_persons_negative_k_counterexample :
  ~ nonpositive_k_empty Np.argsort_insertion origin three_ids three_rows /\
  find_similar_persons Np.argsort_insertion origin three_ids three_rows (-1)
    = Some [("p1"%string, 0%float); ("p2"%string, 1%float)].
Proof.
  split; [|reflexivity].
  intros H. specialize (H (-1)%Z ltac:(lia)). discriminate.
Qed.

Lemma argsort_length (argsort : list float -> list nat)
    (p : Np.array3) (coords : list Np.array3) :
  Np.is_argsort (distances p coords) (argsort (distances p coords)) ->
  List.length (argsort (distances p coords)) = List.length coords.
Proof.
  intros H. rewrite (is_argsort_length _ _ H). apply distances_length.
Qed.

Lemma argsort_In (argsort : list float -> list nat)
    (p : Np.array3) (coords : list Np.array3) (i : nat) :
  Np.is_argsort (distances p coords) (argsort (distances p coords)) ->
  (In i (argsort (distances p coords)) <-> i < List.length coords).
Proof.
  intros H. rewrite (is_argsort_In _ _ i H). now rewrite distances_length.
Qed.

(** The call returns the pairs of the sliced indices. *)
Lemma find_similar_persons_pairs (argsort : list float -> list nat)
    (p : Np.array3) (ids : list string) (coords : list Np.array3) (k : Z) :
  Np.is_argsort (distances p coords) (argsort (distances p coords)) ->
  List.length ids = List.length coords ->
  find_similar_persons argsort p ids coords k =
    Some (map (fun i => (nth i ids ""%string, Np.item (distances p coords) i))
              (Py.slice_to k (argsort (distances p coords)))).
Proof.
  intros Hsort Hids. unfold find_similar_persons. cbv zeta.
  apply pair_up_map. intros i Hi. rewrite Hids, distances_length.
  rewrite slice_to_firstn in Hi. apply firstn_In in Hi.
  split; now apply (argsort_In argsort p coords i Hsort).
Qed.




(** C2, amended: [k = 0] gives the empty list; every [k >= 0] gives
    exactly [min(k, N)] entries, so all [N] when [k >= N]; a negative [k]
    gives [N - |k|] entries (none once [|k| >= N]), as the slice [[:k]]
    does.  Whatever [k] is, negative or not, the entries are the pairs of
    the rows that [np.argsort] lists first: distinct rows, in ascending
    order of distance (NaN last), and no row left out is closer than a row
    kept; so a negative [k] keeps the [N - |k|] nearest rows. *)
Theorem find_similar_persons_length
    (argsort : list float -> list nat)
    (p : Np.array3) (ids : list string) (coords : list Np.array3) (k : Z) :
  let ds := distances p coords in
  let N := List.length coords in
  Np.is_argsort ds (argsort ds) ->
  List.length ids = N ->
  exists similar,
    find_similar_persons argsort p ids coords k = Some similar /\
    (k = 0%Z -> similar = []) /\
    ((0 <= k)%Z -> List.length similar = Nat.min (Z.to_nat k) N) /\
    ((Z.of_nat N <= k)%Z -> List.length similar = N) /\
    ((k < 0)%Z -> List.length similar = N - Z.to_nat (- k)) /\
    exists idx : list nat,
      similar = map (fun i => (nth i ids ""%string, Np.item ds i)) idx /\
      idx = firstn (List.length similar) (argsort ds) /\
      NoDup idx /\
      (forall i, In i idx -> i < N) /\
      Np.is_sorted_by ds idx /\
      (forall i j, In i idx -> j < N -> ~ In j idx ->
         Np.lt (Np.item ds j) (Np.item ds i) = false).
Proof.
  intros ds N Hsort Hids.
  pose proof (argsort_length argsort p coords Hsort) as Hlen. fold ds N in Hlen.
  eexists. split; [now apply find_similar_persons_pairs|]. fold ds.
  assert (L : forall n, List.length
                (map (fun i => (nth i ids ""%string, Np.item ds i))
                     (Py.slice_to k (argsort ds))) = n <->
              (if (k <? 0)%Z then N - Z.to_nat (- k) else Nat.min (Z.to_nat k) N) = n).
  { intros n. now rewrite length_map, slice_to_length, Hlen. }
  split; [|split; [|split; [|split]]].
  - intros ->. reflexivity.
  - intros H. apply L. destruct (Z.ltb_spec k 0); [lia | reflexivity].
  - intros H. apply L. destruct (Z.ltb_spec k 0); lia.
  - intros H. apply L. destruct (Z.ltb_spec k 0); [reflexivity | lia].
  - exists (Py.slice_to k (argsort ds)). split; [reflexivity|].
    assert (Hpre : Py.slice_to k (argsort ds)
                   = firstn (List.length (Py.slice_to k (argsort ds))) (argsort ds)).
    { rewrite slice_to_firstn at 1. rewrite slice_to_length.
      destruct (k <? 0)%Z; [reflexivity|].
      rewrite <- (firstn_firstn (argsort ds)), firstn_all. reflexivity. }
    rewrite length_map. split; [exact Hpre|].
    rewrite Hpre. generalize (List.length (Py.slice_to k (argsort ds))) as n. intros n.
    split; [|split; [|split]].
    + apply firstn_NoDup. eapply is_argsort_NoDup. exact Hsort.
    + intros i Hi. apply firstn_In in Hi.
      now apply (argsort_In argsort p coords i Hsort).
    + apply firstn_sorted. apply Hsort.
    + intros i j Hi Hj Hout. apply (firstn_nearest ds (argsort ds) n i j).
      * apply Hsort.
      * exact Hi.
      * now apply (argsort_In argsort p coords j Hsort).
      * exact Hout.
Qed.

Lemma find_similar_persons_length_witness :
  exists similar,
    find_similar_persons Np.argsort_insertion origin three_ids three_rows (-1)
      = Some similar /\
    List.length similar = 2 /\
    similar = [("p1"%string, 0%float); ("p2"%string, 1%float)].
Proof.
  destruct (find_similar_persons_length Np.argsort_insertion origin three_ids three_rows (-1)
              (argsort_insertion_spec _) eq_refl)
    as (similar & E & _ & _ & _ & H & idx & Hmap & Hidx & _).
  exists similar. split; [exact E|].
  specialize (H eq_refl). split; [exact H|].
  rewrite H in Hidx. rewrite Hmap, Hidx. reflexivity.
Defined.

End SimilarPersons.

(* ================================================================== *)
(** * The load flag and the projection guard: the claims *)
(* ================================================================== *)

Module ServiceState.

Section WithCollaborators.

Variables EmbeddingModel PCA UMAP LibError : Type.
Variable get_embeddings :
  EmbeddingModel -> list string -> LibError + list (list float).
Variable pca_transform : PCA -> list (list float) -> LibError + list (list float).
Variable umap_transform : UMAP -> list (list float) -> LibError + list (list float).
Variable dot : Np.array3 -> Np.array3 -> float.
Variable argsort : list float -> list nat.

Abbreviation service := (EmbeddingService EmbeddingModel PCA UMAP).
Abbreviation project := (project_to_3d pca_transform umap_transform).
Abbreviation step := (after get_embeddings pca_transform umap_transform dot argsort).
Abbreviation steps := (after_all get_embeddings pca_transform umap_transform dot argsort).

(** The projection never writes an attribute. *)
Lemma project_to_3d_frame (v : list float) (self : service) :
  snd (project v self) = self.
Proof.
  unfold project_to_3d, bind, getattr, raise, ret, call_lib. simpl.
  destruct (_models_loaded self); simpl; [|reflexivity].
  destruct (pca_model self) as [pca|]; simpl; [|reflexivity].
  destruct (pca_transform pca [v]) as [e|m]; simpl; [reflexivity|].
  destruct (umap_model self) as [umap|]; simpl; [|reflexivity].
  destruct (umap_transform umap m) as [e|[|row rows]]; reflexivity.
Qed.

Lemma generate_embedding_frame (text : string) (self : service) :
  snd (generate_embedding get_embeddings text self) = self.
Proof.
  unfold generate_embedding, bind, getattr, raise, ret, call_lib. simpl.
  destruct (get_embeddings (embedding_model self) [text]) as [e|[|values rest]];
    reflexivity.
Qed.

Lemma after_load (pca : option PCA) (umap : option UMAP) (self : service) :
  step (Call_load_reduction_models pca umap) self =
    mkService (embedding_model self) pca umap true.
Proof. reflexivity. Qed.

(** Every method but [load_reduction_models] leaves the instance as it was. *)
Lemma after_frame (c : call PCA UMAP) (self : service) :
  is_load c = false -> step c self = self.
Proof.
  destruct c; simpl; intros H; try discriminate; try reflexivity.
  - apply generate_embedding_frame.
  - apply project_to_3d_frame.
Qed.

(** No method clears the flag. *)
Lemma after_loaded (c : call PCA UMAP) (self : service) :
  _models_loaded self = true -> _models_loaded (step c self) = true.
Proof.
  intros H. destruct (is_load c) eqn:E.
  - destruct c; try discriminate. reflexivity.
  - now rewrite after_frame.
Qed.

Lemma after_all_loaded (cs : list (call PCA UMAP)) (self : service) :
  _models_loaded self = true -> _models_loaded (steps cs self) = true.
Proof.
  revert self. induction cs as [|c cs IH]; intros self H; simpl; [exact H|].
  apply IH. now apply after_loaded.
Qed.

Lemma after_all_frame (cs : list (call PCA UMAP)) (self : service) :
  forallb (fun c => negb (is_load c)) cs = true -> steps cs self = self.
Proof.
  revert self. induction cs as [|c cs IH]; intros self H; simpl in *; [reflexivity|].
  apply andb_true_iff in H. destruct H as [Hc Hcs].
  rewrite after_frame by now apply negb_true_iff. now apply IH.
Qed.

Lemma project_unloaded (v : list float) (self : service) :
  _models_loaded self = false -> project v self = (inl ModelNotReady, self).
Proof.
  intros H. unfold project_to_3d, bind, getattr, raise. simpl. now rewrite H.
Qed.

Lemma project_loaded (v : list float) (self : service) :
  _models_loaded self = true -> fst (project v self) <> inl ModelNotReady.
Proof.
  intros H. unfold project_to_3d, bind, getattr, raise, ret, call_lib. simpl.
  rewrite H. simpl.
  destruct (pca_model self) as [pca|]; simpl; [|discriminate].
  destruct (pca_transform pca [v]) as [e|m]; simpl; [discriminate|].
  destruct (umap_model self) as [umap|]; simpl; [|discriminate].
  destruct (umap_transform umap m) as [e|[|row rows]]; discriminate.
Qed.

(** C4: while the flag is unset the projection raises ModelNotReady and
    returns no coordinates, in particular on a fresh instance whatever
    other methods were called; once [load_reduction_models] has been
    called it never raises ModelNotReady, whatever was called since. *)
Theorem project_to_3d_guard (v : list float) (self : service) :
  (_models_loaded self = false ->
     project v self = (inl ModelNotReady, self)) /\
  (forall (model : EmbeddingModel) cs,
     forallb (fun c => negb (is_load c)) cs = true ->
     fst (project v (steps cs (__init__ PCA UMAP model))) = inl ModelNotReady) /\
  (forall pca umap cs,
     fst (project v (steps cs (step (Call_load_reduction_models pca umap) self)))
       <> inl ModelNotReady).
Proof.
  split; [|split].
  - apply project_unloaded.
  - intros model cs H. rewrite after_all_frame by exact H.
    now rewrite project_unloaded.
  - intros pca umap cs. apply project_loaded, after_all_loaded. reflexivity.
Qed.

(** C9: the flag starts unset; [load_reduction_models] sets it and
    stores the two models; every other method leaves the whole
    instance, flag and models included, as it was; so once set the flag
    stays set through any sequence of calls. *)
Theorem models_loaded_monotonic :
  (forall model : EmbeddingModel, _models_loaded (__init__ PCA UMAP model) = false) /\
  (forall pca umap (self : service),
     step (Call_load_reduction_models pca umap) self =
       mkService (embedding_model self) pca umap true) /\
  (forall c (self : service), is_load c = false -> step c self = self) /\
  (forall cs (self : service),
     _models_loaded self = true -> _models_loaded (steps cs self) = true).
Proof.
  split; [reflexivity|]. split; [apply after_load|].
  split; [apply after_frame | apply after_all_loaded].
Qed.

End WithCollaborators.

Lemma project_to_3d_guard_witness :
project_to_3d echo echo [1%float] (__init__ unit unit tt)
  = (inl ModelNotReady, __init__ unit unit tt).
Proof.
apply (project_to_3d_guard unit unit unit unit no_embedding echo echo
         Np.dot_rounded Np.argsort_insertion [1%float] (__init__ unit unit tt)).
reflexivity.
Defined.

Lemma models_loaded_monotonic_witness :
_models_loaded
  (after_all no_embedding echo echo Np.dot_rounded Np.argsort_insertion
     [Call_project_to_3d [1%float]; Call_find_nearest_cluster (0, 0, 0)%float []]
     (after no_embedding echo echo Np.dot_rounded Np.argsort_insertion
        (Call_load_reduction_models (Some tt) (Some tt)) (__init__ unit unit tt)))
  = true.
Proof.
apply (models_loaded_monotonic unit unit unit unit no_embedding echo echo
         Np.dot_rounded Np.argsort_insertion).
reflexivity.
Defined.

End ServiceState.

(* ================================================================== *)
(** * Grouping, sentence order and the fallback *)
(* ================================================================== *)

Module Grouping.
Import Py PyFacts NarrativeFacts.

Lemma distinct_In (l : list (option string)) (t : option string) :
  In t (distinct l) <-> In t l.
Proof.
  induction l as [|a l IH]; simpl; [tauto|].
  rewrite filter_In, IH, negb_true_iff.
  destruct (key_eqb_spec t a) as [->|Hne]; [tauto|].
  split; [tauto|]. intros [H|H]; [congruence|]. right. split; [exact H | reflexivity].
Qed.

Lemma distinct_NoDup (l : list (option string)) : NoDup (distinct l).
Proof.
  induction l as [|a l IH]; simpl; constructor.
  - rewrite filter_In, negb_true_iff, key_eqb_refl. intros [_ H]. discriminate.
  - now apply NoDup_filter.
Qed.

Lemma distinct_snoc (l : list (option string)) (t : option string) :
  distinct (l ++ [t]) =
    if existsb (key_eqb t) l then distinct l else (distinct l ++ [t])%list.
Proof.
  induction l as [|a l IH]; simpl; [reflexivity|].
  rewrite IH. destruct (existsb (key_eqb t) l) eqn:E.
  - now rewrite orb_true_r.
  - rewrite orb_false_r, filter_app. simpl.
    destruct (key_eqb_spec t a) as [->|Hne]; simpl.
    + now rewrite app_nil_r.
    + reflexivity.
Qed.

Lemma group_append_keys (g : groups) (t : option string) (e : LifeEvent) :
  map fst (group_append g t e) =
    if existsb (key_eqb t) (map fst g) then map fst g else (map fst g ++ [t])%list.
Proof.
  induction g as [|[t' es] g IH]; simpl; [reflexivity|].
  rewrite (key_eqb_sym t t').
  destruct (key_eqb t' t); simpl; [reflexivity|].
  rewrite IH. now destruct (existsb (key_eqb t) (map fst g)).
Qed.

Lemma group_events_snoc (events : list LifeEvent) (e : LifeEvent) :
  group_events (events ++ [e]) = group_append (group_events events) (get_event_type e) e.
Proof. unfold group_events. now rewrite fold_left_app. Qed.

Lemma group_events_keys (events : list LifeEvent) :
  map fst (group_events events) = distinct (map get_event_type events).
Proof.
  induction events as [|e events IH] using rev_ind; [reflexivity|].
  rewrite group_events_snoc, group_append_keys, map_app. simpl map.
  rewrite distinct_snoc, IH.
  assert (H : existsb (key_eqb (get_event_type e)) (distinct (map get_event_type events))
              = existsb (key_eqb (get_event_type e)) (map get_event_type events)).
  { apply eq_true_iff_eq. rewrite !existsb_exists.
    split; intros (u & Hu & E); exists u; (split; [|exact E]); now apply distinct_In. }
  now rewrite H.
Qed.

Lemma lookup_In (g : groups) (t : option string) (es : list LifeEvent) :
  NoDup (map fst g) -> In (t, es) g -> lookup t g = Some es.
Proof.
  induction g as [|[t' es'] g IH]; simpl; [tauto|].
  intros Hnd [H|H].
  - injection H as -> ->. now rewrite key_eqb_refl.
  - inversion Hnd as [|? ? Hnotin Hnd']; subst.
    destruct (key_eqb_spec t' t) as [->|Hne]; [|now apply IH].
    exfalso. apply Hnotin. apply (in_map fst) in H. exact H.
Qed.

Lemma group_events_NoDup (events : list LifeEvent) :
  NoDup (map fst (group_events events)).
Proof. rewrite group_events_keys. apply distinct_NoDup. Qed.

Lemma group_events_In (events : list LifeEvent) (t : option string) (es : list LifeEvent) :
  In (t, es) (group_events events) <-> es = filter (has_key t) events /\ es <> [].
Proof.
  pose proof (group_events_NoDup events) as Hnd.
  split.
  - intros H. apply (lookup_In _ _ _ Hnd) in H.
    rewrite lookup_group_events in H.
    destruct (filter (has_key t) events) eqn:E; [discriminate|].
    injection H as <-. split; [reflexivity | discriminate].
  - intros [-> Hne].
    pose proof (lookup_group_events events t) as H.
    destruct (filter (has_key t) events) as [|a l] eqn:E; [congruence|].
    clear Hne. revert H. generalize (a :: l) as es. generalize (group_events events) as g.
    induction g as [|[t' es'] g IH]; simpl; [discriminate|].
    intros es. destruct (key_eqb_spec t' t) as [->|Hne].
    + intros [= ->]. now left.
    + intros H. right. now apply IH.
Qed.

(** X1: the dict of groups has one key per distinct value of
    [event.get('event_type', 'other')], in the order the values first
    occur: a missing type reads 'other', while the value [None] is a key of
    its own, apart from every string.  Under each key are exactly the
    events of that key, in input order; an event whose type is [None] is in
    the group of [None] and in no group of a string. *)
Theorem group_events_spec (events : list LifeEvent) :
  map fst (group_events events) = distinct (map get_event_type events) /\
  NoDup (map fst (group_events events)) /\
  (forall k es, In (k, es) (group_events events) <->
     es = filter (has_key k) events /\ es <> []) /\
  (forall e, In e events -> event_type e = IsNone ->
     (exists es, In (None, es) (group_events events) /\ In e es) /\
     (forall t es, In (Some t, es) (group_events events) -> ~ In e es)) /\
  (forall e, In e events -> event_type e = Missing ->
     exists es, In (Some "other", es) (group_events events) /\ In e es).
Proof.
  split; [apply group_events_keys|]. split; [apply group_events_NoDup|].
  split; [apply group_events_In|]. split.
  - intros e He Hty.
    assert (Hk : get_event_type e = None) by (unfold get_event_type; now rewrite Hty).
    split.
    + exists (filter (has_key None) events).
      assert (Hin : In e (filter (has_key None) events)).
      { apply filter_In. split; [exact He|]. unfold has_key. now rewrite Hk. }
      split; [|exact Hin].
      apply group_events_In. split; [reflexivity|].
      intros E. rewrite E in Hin. destruct Hin.
    + intros t es Hin Hes. apply group_events_In in Hin. destruct Hin as [-> _].
      apply filter_In in Hes. destruct Hes as [_ H].
      unfold has_key in H. rewrite Hk in H. discriminate.
  - intros e He Hty.
    assert (Hk : get_event_type e = Some "other")
      by (unfold get_event_type; now rewrite Hty).
    exists (filter (has_key (Some "other")) events).
    assert (Hin : In e (filter (has_key (Some "other")) events)).
    { apply filter_In. split; [exact He|]. unfold has_key. now rewrite Hk. }
    split; [|exact Hin].
    apply group_events_In. split; [reflexivity|].
    intros E. rewrite E in Hin. destruct Hin.
Qed.

Lemma group_events_spec_witness :
  (exists es, In (None, es) (group_events untyped_events) /\
     In (mkEvent IsNone (Some "Sailing") None None) es) /\
  (forall t es, In (Some t, es) (group_events untyped_events) ->
     ~ In (mkEvent IsNone (Some "Sailing") None None) es).
Proof.
  destruct (group_events_spec untyped_events) as (_ & _ & _ & H & _).
  apply (H (mkEvent IsNone (Some "Sailing") None None)).
  - now left.
  - reflexivity.
Defined.

Lemma collect_map_filter {A K : Type} (f : K * A -> option string)
    (p : K -> bool) (h : K -> string) (l : list (K * A)) :
  (forall item, In item l -> f item = if p (fst item) then Some (h (fst item)) else None) ->
  collect f l = map h (filter p (map fst l)).
Proof.
  induction l as [|item l IH]; intros H; simpl; [reflexivity|].
  rewrite (H item (or_introl eq_refl)), IH by (intros; apply H; now right).
  now destruct (p (fst item)).
Qed.

Lemma other_sentences_spec (events : list LifeEvent) :
  collect other_sentence (group_events events) =
    map (notable_sentence events)
        (filter is_other_type (distinct (map get_event_type events))).
Proof.
  rewrite <- group_events_keys. apply collect_map_filter.
  intros [t es] Hin. apply group_events_In in Hin.
  destruct Hin as [-> Hne]. unfold other_sentence, notable_sentence. simpl.
  destruct (is_other_type t); [|reflexivity].
  now destruct (filter (has_key t) events).
Qed.

End Grouping.

(* ================================================================== *)
(** * The stable sort by start date *)
(* ================================================================== *)

Module DateSort.
Import NarrativeFacts.

Lemma date_ltb_spec (a b : date) :
  date_ltb a b = true <->
  year a < year b \/
  (year a = year b /\ (month a < month b \/ (month a = month b /\ day a < day b))).
Proof.
  unfold date_ltb.
  rewrite !orb_true_iff, !andb_true_iff, !orb_true_iff, !andb_true_iff.
  rewrite !Nat.ltb_lt, !Nat.eqb_eq. tauto.
Qed.

Lemma date_eqb_spec (a b : date) :
  date_eqb a b = true <-> year a = year b /\ month a = month b /\ day a = day b.
Proof.
  unfold date_eqb. rewrite !andb_true_iff, !Nat.eqb_eq. tauto.
Qed.

Lemma date_ltb_false (a b : date) :
  date_ltb a b = false <->
  ~ (year a < year b \/
     (year a = year b /\ (month a < month b \/ (month a = month b /\ day a < day b)))).
Proof. rewrite <- date_ltb_spec. now destruct (date_ltb a b). Qed.

Lemma date_eqb_false (a b : date) :
  date_eqb a b = false <-> ~ (year a = year b /\ month a = month b /\ day a = day b).
Proof. rewrite <- date_eqb_spec. now destruct (date_eqb a b). Qed.

Lemma filter_none {A : Type} (p : A -> bool) (l : list A) :
  (forall a, In a l -> p a = false) -> filter p l = [].
Proof.
  induction l as [|a l IH]; intros H; simpl; [reflexivity|].
  rewrite (H a (or_introl eq_refl)). apply IH. intros b Hb. apply H. now right.
Qed.

(** Inserting an event keeps the list in order of start date. *)
Lemma insert_by_date_sorted (e : LifeEvent) (l : list LifeEvent) :
  StronglySorted by_start_date l -> StronglySorted by_start_date (insert_by_date e l).
Proof.
  induction 1 as [|e' l Hs IH He']; simpl.
  - repeat constructor.
  - destruct (date_ltb (sort_key e) (sort_key e')) eqn:E.
    + constructor; [now constructor|]. constructor.
      * unfold by_start_date. apply date_ltb_false. apply date_ltb_spec in E. lia.
      * eapply Forall_impl; [|exact He']. unfold by_start_date. intros r Hr.
        apply date_ltb_false. apply date_ltb_false in Hr. apply date_ltb_spec in E. lia.
    + constructor; [exact IH|].
      apply Forall_forall. intros r Hr.
      apply (Permutation_in _ (insert_by_date_perm e l)) in Hr.
      destruct Hr as [<- | Hr]; [exact E|].
      rewrite Forall_forall in He'. now apply He'.
Qed.

(** An inserted event goes after the events of the same day. *)
Lemma insert_by_date_on_day (d : date) (e : LifeEvent) (l : list LifeEvent) :
  StronglySorted by_start_date l ->
  on_day d (insert_by_date e l) = (on_day d l ++ on_day d [e])%list.
Proof.
  unfold on_day. induction 1 as [|e' l Hs IH He']; simpl; [reflexivity|].
  destruct (date_ltb (sort_key e) (sort_key e')) eqn:E; simpl.
  - destruct (date_eqb (sort_key e) d) eqn:Ed; [|now rewrite app_nil_r].
    (* [e] is before [e'] and everything after: none of them is on day [d] *)
    assert (Hnone : filter (fun e0 => date_eqb (sort_key e0) d) (e' :: l) = []).
    { apply filter_none. intros r [<- | Hr].
      - apply date_eqb_false.
        apply date_ltb_spec in E. apply date_eqb_spec in Ed. lia.
      - rewrite Forall_forall in He'.
        specialize (He' r Hr). unfold by_start_date in He'.
        apply date_eqb_false. apply date_ltb_false in He'.
        apply date_ltb_spec in E. apply date_eqb_spec in Ed. lia. }
    simpl in Hnone. rewrite Hnone. reflexivity.
  - rewrite IH. now destruct (date_eqb (sort_key e') d).
Qed.

Lemma fold_insert_by_date (l acc : list LifeEvent) :
  StronglySorted by_start_date acc ->
  let r := fold_left (fun acc e => insert_by_date e acc) l acc in
  StronglySorted by_start_date r /\ forall d, on_day d r = (on_day d acc ++ on_day d l)%list.
Proof.
  revert acc. induction l as [|e l IH]; intros acc Hs; simpl.
  - split; [exact Hs | intros d; now rewrite app_nil_r].
  - destruct (IH _ (insert_by_date_sorted e acc Hs)) as [Hs' Hd].
    split; [exact Hs'|]. intros d.
    rewrite Hd, insert_by_date_on_day by exact Hs.
    unfold on_day. simpl. rewrite <- app_assoc.
    now destruct (date_eqb (sort_key e) d).
Qed.

(** X6: [sorted(events, key=start_date or date.min)] rearranges the
    events in ascending order of the key, and events with the same key
    keep their input order. *)
Theorem sorted_by_start_date_spec (l : list LifeEvent) :
  Permutation (sorted_by_start_date l) l /\
  StronglySorted by_start_date (sorted_by_start_date l) /\
  (forall d, on_day d (sorted_by_start_date l) = on_day d l).
Proof.
  split; [apply sorted_by_start_date_perm|].
  exact (fold_insert_by_date l [] (SSorted_nil _)).
Qed.

End DateSort.

(* ================================================================== *)
(** * The shape of a narrative *)
(* ================================================================== *)

Module NarrativeShape.
Import Py PyFacts NarrativeFacts Narrative Grouping.

Lemma narrative_parts_in_order (events : list LifeEvent) (name description : option string) :
  narrative_parts events name description = sentences_in_order events name description.
Proof.
  rewrite narrative_parts_groups. unfold sentences_in_order.
  now rewrite other_sentences_spec.
Qed.

Lemma emp_label_labelled (e : LifeEvent) :
  emp_label e = if labelled e then Some (labelled_text e) else None.
Proof.
  unfold emp_label, labelled, labelled_text.
  destruct (truthy (event_title e)), (truthy (organization e)); reflexivity.
Qed.

Lemma filter_perm_length {A : Type} (p : A -> bool) (l l' : list A) :
  Permutation l l' -> List.length (filter p l) = List.length (filter p l').
Proof.
  induction 1; simpl; repeat destruct (p _); simpl; congruence.
Qed.

Lemma emp_parts_length (emp_events : list LifeEvent) :
  List.length (emp_parts emp_events) = List.length (filter labelled emp_events).
Proof.
  unfold emp_parts.
  rewrite (collect_filter_map emp_label labelled labelled_text) by apply emp_label_labelled.
  rewrite length_map. apply filter_perm_length, sorted_by_start_date_perm.
Qed.

(** X5: an employment event contributes a label exactly when it has a
    title or an organization: "{title} at {organization}" with both,
    "worked at {organization}" without a title, the title alone without an
    organization; the labels come in order of start date. *)
Theorem employment_labels_spec (emp_events : list LifeEvent) :
  emp_parts emp_events
    = map labelled_text (filter labelled (sorted_by_start_date emp_events)) /\
  List.length (emp_parts emp_events) = List.length (filter labelled emp_events) /\
  (forall l, In l (emp_parts emp_events) <->
     exists e, In e emp_events /\ labelled e = true /\ l = labelled_text e).
Proof.
  split; [apply collect_filter_map, emp_label_labelled|].
  split; [apply emp_parts_length|].
  intros l. unfold emp_parts. rewrite collect_In. split.
  - intros (e & He & Hl). rewrite emp_label_labelled in Hl.
    exists e. rewrite sorted_by_start_date_In in He.
    destruct (labelled e); [|discriminate]. injection Hl as <-. auto.
  - intros (e & He & Ht & ->). exists e. rewrite sorted_by_start_date_In.
    split; [exact He|]. now rewrite emp_label_labelled, Ht.
Qed.

(** ** When nothing is emitted *)

Lemma is_nil_app {A : Type} (l l' : list A) : is_nil (l ++ l') = is_nil l && is_nil l'.
Proof. now destruct l. Qed.

Lemma is_nil_length {A B : Type} (l : list A) (l' : list B) :
  List.length l = List.length l' -> is_nil l = is_nil l'.
Proof. destruct l, l'; simpl; congruence. Qed.

Lemma is_nil_filter {A : Type} (p : A -> bool) (l : list A) :
  is_nil (filter p l) = forallb (fun a => negb (p a)) l.
Proof.
  induction l as [|a l IH]; simpl; [reflexivity|].
  now destruct (p a).
Qed.

Lemma is_nil_map {A B : Type} (f : A -> B) (l : list A) : is_nil (map f l) = is_nil l.
Proof. now destruct l. Qed.

Lemma biography_nil (name description : option string) :
  is_nil (biography name description) = negb (truthy name) && negb (truthy description).
Proof.
  unfold biography. destruct (truthy name), (truthy description); reflexivity.
Qed.

Lemma education_sentence_nil (parts : list string) :
  is_nil (education_sentence parts) = is_nil parts.
Proof.
  unfold education_sentence. destruct parts as [|a l]; [reflexivity|].
  now destruct (List.length (a :: l) =? 1)%nat.
Qed.

Lemma employment_sentence_nil (parts : list string) :
  is_nil (employment_sentence parts) = is_nil parts.
Proof.
  unfold employment_sentence. destruct parts as [|a l]; [reflexivity|].
  now destruct (List.length (a :: l) <=? 3)%nat.
Qed.

Lemma award_sentence_nil (award_events : list LifeEvent) :
  is_nil (award_sentence award_events) =
    (List.length award_events <=? 5)%nat
    && forallb (fun e => negb (titled e)) award_events.
Proof.
  unfold award_sentence. destruct (List.length award_events <=? 5)%nat; [|reflexivity].
  cbv zeta. rewrite award_names_titles. simpl.
  rewrite <- is_nil_filter.
  now destruct (filter titled award_events).
Qed.

Lemma other_types_nil (events : list LifeEvent) :
  is_nil (filter is_other_type (distinct (map get_event_type events)))
    = forallb (fun e => negb (is_other_type (get_event_type e))) events.
Proof.
  rewrite is_nil_filter. apply eq_true_iff_eq.
  rewrite !forallb_forall. split.
  - intros H e He. apply H, distinct_In, in_map, He.
  - intros H t Ht. apply distinct_In, in_map_iff in Ht.
    destruct Ht as (e & <- & He). now apply H.
Qed.

Lemma sentences_nil (events : list LifeEvent) (name description : option string) :
  is_nil (sentences_in_order events name description)
    = nothing_to_say events name description.
Proof.
  unfold sentences_in_order, nothing_to_say.
  rewrite !is_nil_app, biography_nil, education_sentence_nil,
    employment_sentence_nil, award_sentence_nil, is_nil_map, other_types_nil.
  rewrite (is_nil_length _ _ (edu_parts_length _)),
    (is_nil_length _ _ (emp_parts_length _)), !is_nil_filter.
  now rewrite !andb_assoc.
Qed.

Lemma narrative_formula (events : list LifeEvent) (name description : option string) :
  create_narrative_from_events events name description =
    if nothing_to_say events name description
    then fallback_narrative
    else join " " (sentences_in_order events name description).
Proof.
  rewrite <- sentences_nil, <- narrative_parts_in_order.
  destruct (narrative_parts events name description) as [|s l] eqn:E.
  - unfold create_narrative_from_events. now rewrite E.
  - change (is_nil (s :: l)) with false. cbv iota.
    rewrite <- E. apply create_narrative_emitted. congruence.
Qed.

(** The text of the fallback does not tell that nothing was emitted: a
    name that reads as the fallback without its full stop gives the same
    text as a biography sentence. *)
Lemma fallback_text_emitted :
  nothing_to_say []
    (Some "This person has a diverse background with various life experiences") None
    = false /\
  create_narrative_from_events []
    (Some "This person has a diverse background with various life experiences") None
    = fallback_narrative.
Proof. split; reflexivity. Qed.

(** X3: no sentence is emitted exactly when the input gives nothing to
    say, and the narrative is then the fallback sentence; in every other
    case it is the biography, education, employment, award and other-type
    sentences, in this order whatever the order of the events, joined by
    single spaces. *)
Theorem narrative_shape (events : list LifeEvent) (name description : option string) :
  create_narrative_from_events events name description =
    (if nothing_to_say events name description
     then fallback_narrative
     else join " " (sentences_in_order events name description)) /\
  (nothing_to_say events name description = true <->
     narrative_parts events name description = []).
Proof.
  split; [apply narrative_formula|].
  rewrite <- sentences_nil, <- narrative_parts_in_order.
  destruct (narrative_parts events name description); simpl; split; congruence.
Qed.

(** X2: every event type outside education, employment and award gets
    one sentence "Notable {type} events: {count}.", in the order the types
    first occur, with the number of events of that type; an event without
    the key counts under 'other', and an event whose type is [None] under
    a type of its own, written [None]. *)
Theorem other_types_sentences (events : list LifeEvent) (name description : option string) :
  collect other_sentence (group_events events)
    = map (notable_sentence events)
          (filter is_other_type (distinct (map get_event_type events))) /\
  (forall e, In e events -> is_other_type (get_event_type e) = true ->
     contains (notable_sentence events (get_event_type e))
       (create_narrative_from_events events name description)).
Proof.
  split; [apply other_sentences_spec|].
  intros e He Ht. apply emitted_contains.
  rewrite narrative_parts_in_order. unfold sentences_in_order.
  do 4 (apply in_or_app; right).
  apply in_map, filter_In. split; [|exact Ht].
  apply distinct_In, in_map, He.
Qed.

Lemma other_types_sentences_witness :
  contains "Notable None events: 2."
    (create_narrative_from_events untyped_events None None).
Proof.
  apply (proj2 (other_types_sentences untyped_events None None)
           (mkEvent IsNone (Some "Sailing") None None)).
  - now left.
  - reflexivity.
Defined.

(** The narrative of events whose type is [None] or missing. *)
Lemma untyped_events_narrative :
  create_narrative_from_events untyped_events None None
    = "Notable None events: 2. Notable other events: 1.".
Proof. reflexivity. Qed.

(** X4: with a name or a description, the narrative starts with the
    biography sentence: the name, or "This person" without one, followed
    by " is {description}." or by a full stop without a description. *)
Theorem narrative_starts_with_biography
    (events : list LifeEvent) (name description : option string) :
  truthy name || truthy description = true ->
  exists rest,
    create_narrative_from_events events name description =
      or_str name "This person"
      ++ (if truthy description then " is " ++ str description ++ "." else ".")
      ++ rest.
Proof.
  intros H.
  assert (Hbio : exists tail,
            narrative_parts events name description =
              (or_str name "This person"
               ++ (if truthy description then " is " ++ str description ++ "." else "."))
              :: tail).
  { rewrite narrative_parts_groups. unfold biography. rewrite H.
    destruct (truthy description); simpl; eexists; reflexivity. }
  destruct Hbio as (tail & E).
  rewrite create_narrative_emitted by (rewrite E; discriminate).
  rewrite E. unfold join.
  destruct tail as [|s tail].
  - exists "". simpl. now rewrite !append_nil_r.
  - exists (" " ++ concat " " (s :: tail)).
    change (concat " " (?a :: s :: tail)) with (a ++ " " ++ concat " " (s :: tail)).
    now rewrite !append_assoc.
Qed.

Lemma narrative_starts_with_biography_witness :
  exists rest,
    create_narrative_from_events mixed_events None (Some "a sailor")
      = "This person is a sailor." ++ rest.
Proof.
  destruct (narrative_starts_with_biography mixed_events None (Some "a sailor") eq_refl)
    as (rest & E).
  exists rest. exact E.
Defined.

End NarrativeShape.

(* ================================================================== *)
(** * The order of events of different main types does not matter *)
(* ================================================================== *)

Module Interleaving.
Import Py PyFacts NarrativeFacts Grouping NarrativeShape.

Lemma filter_id {A : Type} (p : A -> bool) (l : list A) :
  (forall a, In a l -> p a = true) -> filter p l = l.
Proof.
  induction l as [|a l IH]; intros H; simpl; [reflexivity|].
  rewrite (H a (or_introl eq_refl)). f_equal. apply IH. intros b Hb. apply H. now right.
Qed.

Lemma filter_comm {A : Type} (p q : A -> bool) (l : list A) :
  filter p (filter q l) = filter q (filter p l).
Proof.
  induction l as [|a l IH]; simpl; [reflexivity|].
  destruct (p a) eqn:Ep, (q a) eqn:Eq; simpl; rewrite ?Ep, ?Eq, IH; reflexivity.
Qed.

(** Dropping items before or after removing repetitions is the same. *)
Lemma filter_distinct (p : option string -> bool) (l : list (option string)) :
  filter p (distinct l) = distinct (filter p l).
Proof.
  induction l as [|a l IH]; simpl; [reflexivity|].
  rewrite filter_comm, IH. destruct (p a) eqn:E; simpl; [reflexivity|].
  apply filter_id. intros b Hb. apply distinct_In, filter_In in Hb.
  destruct Hb as [_ Hb]. apply negb_true_iff.
  destruct (key_eqb_spec b a); congruence.
Qed.

Lemma filter_swap {A : Type} (p : A -> bool) (l1 l2 : list A) (a b : A) :
  p a = false \/ p b = false ->
  filter p (l1 ++ a :: b :: l2) = filter p (l1 ++ b :: a :: l2).
Proof.
  intros H. rewrite !filter_app. simpl.
  destruct H as [H|H]; rewrite H; now destruct (p a), (p b).
Qed.

Lemma forallb_swap {A : Type} (p : A -> bool) (l1 l2 : list A) (a b : A) :
  forallb p (l1 ++ a :: b :: l2) = forallb p (l1 ++ b :: a :: l2).
Proof.
  rewrite !forallb_app. simpl. now destruct (p a), (p b).
Qed.

(** X16: two neighbouring events of different types, both among
    education, employment and award, can be exchanged without changing
    the narrative. *)
Theorem narrative_swap_main_types
    (l1 l2 : list LifeEvent) (a b : LifeEvent) (name description : option string) :
  get_event_type a <> get_event_type b ->
  is_other_type (get_event_type a) = false ->
  is_other_type (get_event_type b) = false ->
  create_narrative_from_events (l1 ++ a :: b :: l2) name description =
  create_narrative_from_events (l1 ++ b :: a :: l2) name description.
Proof.
  intros Hne Ha Hb.
  assert (Hf : forall k, filter (has_key k) (l1 ++ a :: b :: l2)
                       = filter (has_key k) (l1 ++ b :: a :: l2)).
  { intros k. apply filter_swap. unfold has_key.
    destruct (key_eqb_spec (get_event_type a) k) as [Ea|Ea]; [|now left].
    destruct (key_eqb_spec (get_event_type b) k) as [Eb|Eb]; [congruence | now right]. }
  assert (Ho : filter is_other_type (distinct (map get_event_type (l1 ++ a :: b :: l2)))
             = filter is_other_type (distinct (map get_event_type (l1 ++ b :: a :: l2)))).
  { rewrite !filter_distinct. f_equal.
    rewrite !map_app, !filter_app. simpl. now rewrite Ha, Hb. }
  rewrite !narrative_formula. unfold nothing_to_say, sentences_in_order, has_type.
  rewrite !Hf, Ho, (forallb_swap _ l1 l2 a b).
  destruct (_ && _); [reflexivity|]. do 5 f_equal.
  apply map_ext. intros t. unfold notable_sentence. now rewrite Hf.
Qed.

Lemma narrative_swap_main_types_witness :
  create_narrative_from_events
    [ mkEvent (Str "employment") (Some "Clerk") None None;
      mkEvent (Str "education") (Some "BSc") (Some "MIT") None ] None None
  = create_narrative_from_events
    [ mkEvent (Str "education") (Some "BSc") (Some "MIT") None;
      mkEvent (Str "employment") (Some "Clerk") None None ] None None.
Proof.
  apply (narrative_swap_main_types [] []); [discriminate | reflexivity | reflexivity].
Defined.

End Interleaving.

(* ================================================================== *)
(** * Distances are symmetric *)
(* ================================================================== *)

Module Symmetry.
Import Float64 ArgsortFacts.











End Symmetry.

(* ================================================================== *)
(** * Further properties of the nearest-cluster scan *)
(* ================================================================== *)

Module NearestClusterMore.
Import Float64 NpFacts NearestCluster.

(** X7: scanning one more cluster keeps the cluster found so far unless
    the new one is strictly closer; with nothing found so far the new one
    is taken when its distance is below infinity.  The distances are the
    floats [np.linalg.norm] returns, whatever its dot product rounds. *)
Theorem find_nearest_cluster_snoc (dot : Np.array3 -> Np.array3 -> float)
    (p : Np.array3) (l : list ClusterInfo) (c : ClusterInfo) :
  find_nearest_cluster dot p (l ++ [c]) =
    match find_nearest_cluster dot p l with
    | Some b => if (dist dot p c <? dist dot p b)%float then Some c else Some b
    | None => if (dist dot p c <? infinity)%float then Some c else None
    end.
Proof.
  unfold find_nearest_cluster. rewrite fold_left_app. simpl.
  pose proof (scanned_all dot p l) as H.
  destruct (fold_left (nearest_step dot p) l (infinity, None)) as [m best].
  unfold scanned in H. simpl in H. unfold nearest_step. fold (dist dot p c). simpl.
  destruct best as [b|].
  - destruct H as (-> & _). now destruct (dist dot p c <? dist dot p b)%float.
  - destruct H as (-> & _). now destruct (dist dot p c <? infinity)%float.
Qed.

(** X8: a cluster strictly closer than every other one, by the floats
    [np.linalg.norm] returns (whatever its dot product rounds), is the
    cluster returned, wherever it stands in the sequence. *)
Theorem find_nearest_cluster_unique_min
    (dot : Np.array3 -> Np.array3 -> float)
    (p : Np.array3) (clusters clusters' : list ClusterInfo) (c : ClusterInfo) :
  Permutation clusters clusters' ->
  In c clusters ->
  (dist dot p c <? infinity)%float = true ->
  (forall c', In c' clusters ->
     c' = c \/ is_nan (dist dot p c') = true \/ (dist dot p c <? dist dot p c')%float = true) ->
  find_nearest_cluster dot p clusters' = Some c.
Proof.
  intros Hperm Hin Hfin Hmin.
  pose proof (scanned_all dot p clusters') as H. unfold find_nearest_cluster.
  destruct (fold_left (nearest_step dot p) clusters' (infinity, None)) as [m best].
  unfold scanned in H. simpl in *.
  assert (Hin' : In c clusters') by (eapply Permutation_in; eassumption).
  destruct best as [b|].
  - destruct H as (_ & Hb & i & Hi & Hleast & _).
    assert (Hbin : In b clusters).
    { eapply Permutation_in; [symmetry; exact Hperm|]. eapply nth_error_In; exact Hi. }
    destruct (Hmin b Hbin) as [-> | [Hnan | Hlt]]; [reflexivity | |].
    + apply ltb_not_nan in Hb. destruct Hb. congruence.
    + rewrite (Hleast c Hin') in Hlt. discriminate.
  - destruct H as (_ & Hnone). rewrite (Hnone c Hin') in Hfin. discriminate.
Qed.

Lemma find_nearest_cluster_unique_min_witness :
  find_nearest_cluster Np.dot_rounded (0, 0, 0)%float (rev spread_clusters)
    = Some (mkCluster 2 "near" (mkCoord 0 0.5 0)).
Proof.
  apply (find_nearest_cluster_unique_min Np.dot_rounded (0, 0, 0)%float spread_clusters).
  - apply Permutation_rev.
  - simpl. tauto.
  - reflexivity.
  - intros c' [<-|[<-|[<-|[]]]]; [right; right | left | right; right]; reflexivity.
Defined.

(** X9: whatever the clusters, a cluster returned is one of them, at a
    distance below infinity, and no cluster is strictly closer; the
    distances are the floats [np.linalg.norm] returns, whatever its dot
    product rounds. *)
Theorem find_nearest_cluster_sound
    (dot : Np.array3 -> Np.array3 -> float)
    (p : Np.array3) (clusters : list ClusterInfo) (c : ClusterInfo) :
  find_nearest_cluster dot p clusters = Some c ->
  In c clusters /\
  (dist dot p c <? infinity)%float = true /\
  (forall c', In c' clusters -> (dist dot p c' <? dist dot p c)%float = false).
Proof.
  pose proof (scanned_all dot p clusters) as H. unfold find_nearest_cluster.
  destruct (fold_left (nearest_step dot p) clusters (infinity, None)) as [m best].
  unfold scanned in H. simpl in *. intros ->.
  destruct H as (_ & Hfin & i & Hi & Hmin & _).
  split; [eapply nth_error_In; exact Hi|]. split; assumption.
Qed.

Lemma find_nearest_cluster_sound_witness :
  In (mkCluster 2 "near" (mkCoord 0 1 0)) three_clusters.
Proof.
  apply (find_nearest_cluster_sound Np.dot_rounded (0, 0, 0)%float three_clusters).
  reflexivity.
Defined.

End NearestClusterMore.

(* ================================================================== *)
(** * Further properties of the similarity search *)
(* ================================================================== *)

Module SimilarPersonsMore.
Import Float64 NpFacts ArgsortFacts.

Lemma pair_up_firstn (ids : list string) (ds : list float) (idx : list nat)
    (r : list (string * float)) (n : nat) :
  pair_up ids ds idx = Some r ->
  pair_up ids ds (firstn n idx) = Some (firstn n r).
Proof.
  revert r n. induction idx as [|i idx IH]; intros r n; simpl.
  - intros [= <-]. now destruct n.
  - destruct (nth_error ids i) as [pid|] eqn:Ei; [|discriminate].
    destruct (nth_error ds i) as [d|] eqn:Ed; [|discriminate].
    destruct (pair_up ids ds idx) as [tl|] eqn:Et; [|discriminate].
    intros [= <-]. destruct n as [|n]; simpl; [reflexivity|].
    now rewrite Ei, Ed, (IH tl n eq_refl).
Qed.

Lemma pair_up_In (ids : list string) (ds : list float) (idx : list nat)
    (r : list (string * float)) (pid : string) (d : float) :
  pair_up ids ds idx = Some r -> In (pid, d) r ->
  exists i, In i idx /\ nth_error ids i = Some pid /\ nth_error ds i = Some d.
Proof.
  revert r. induction idx as [|i idx IH]; intros r; simpl.
  - intros [= <-] [].
  - destruct (nth_error ids i) as [pid'|] eqn:Ei; [|discriminate].
    destruct (nth_error ds i) as [d'|] eqn:Ed; [|discriminate].
    destruct (pair_up ids ds idx) as [tl|] eqn:Et; [|discriminate].
    intros [= <-] [H|H].
    + injection H as -> ->. exists i. auto.
    + destruct (IH tl eq_refl H) as (j & Hj & Hid & Hd). exists j. auto.
Qed.

Lemma pair_up_out_of_range (ids : list string) (ds : list float) (idx : list nat) (i : nat) :
  In i idx -> List.length ids <= i -> pair_up ids ds idx = None.
Proof.
  induction idx as [|j idx IH]; simpl; [tauto|].
  intros [-> | Hin] Hi.
  - now rewrite (proj2 (nth_error_None ids i) Hi).
  - rewrite (IH Hin Hi). destruct (nth_error ids j), (nth_error ds j); reflexivity.
Qed.

Lemma slice_to_slice {A : Type} (k k' : Z) (l : list A) :
  (0 <= k <= k')%Z ->
  Py.slice_to k l = firstn (Z.to_nat k) (Py.slice_to k' l).
Proof.
  intros H. rewrite !slice_to_firstn.
  destruct (Z.ltb_spec k 0), (Z.ltb_spec k' 0); try lia.
  rewrite firstn_firstn. f_equal. lia.
Qed.

(** X10: asking for fewer neighbours gives a prefix of the longer answer:
    for [0 <= k <= k'] the result for [k] is the first [k] entries of the
    result for [k'], whatever sort [np.argsort] performs. *)
Theorem find_similar_persons_prefix
    (argsort : list float -> list nat)
    (p : Np.array3) (ids : list string) (coords : list Np.array3)
    (k k' : Z) (r' : list (string * float)) :
  (0 <= k <= k')%Z ->
  find_similar_persons argsort p ids coords k' = Some r' ->
  find_similar_persons argsort p ids coords k = Some (firstn (Z.to_nat k) r').
Proof.
  unfold find_similar_persons. cbv zeta. intros Hk H.
  rewrite (slice_to_slice k k') by exact Hk. now apply pair_up_firstn.
Qed.

Lemma find_similar_persons_prefix_witness :
  find_similar_persons Np.argsort_insertion origin three_ids three_rows 1
    = Some [("p1"%string, 0%float)].
Proof.
  apply (find_similar_persons_prefix Np.argsort_insertion origin three_ids three_rows 1 2
           [("p1"%string, 0%float); ("p2"%string, 1%float)]).
  - lia.
  - reflexivity.
Defined.

(** X12: every pair returned holds the person id and the distance of one
    and the same row of the index, and no distance is below zero. *)
Theorem find_similar_persons_pairs_rows
    (argsort : list float -> list nat)
    (p : Np.array3) (ids : list string) (coords : list Np.array3)
    (k : Z) (r : list (string * float)) :
  find_similar_persons argsort p ids coords k = Some r ->
  forall pid d, In (pid, d) r ->
    (d <? 0)%float = false /\
    exists i row,
      nth_error ids i = Some pid /\ nth_error coords i = Some row /\
      d = Np.norm (Np.sub3 row p).
Proof.
  unfold find_similar_persons. cbv zeta. intros H pid d Hin.
  destruct (pair_up_In _ _ _ _ pid d H Hin) as (i & _ & Hid & Hd).
  unfold distances in Hd. rewrite nth_error_map in Hd.
  destruct (nth_error coords i) as [row|] eqn:Erow; [|discriminate].
  injection Hd as <-. split; [apply norm_not_neg|].
  exists i, row. auto.
Qed.

Lemma find_similar_persons_pairs_rows_witness :
  (1 <? 0)%float = false /\
  exists i row,
    nth_error three_ids i = Some "p2"%string /\ nth_error three_rows i = Some row /\
    1%float = Np.norm (Np.sub3 row origin).
Proof.
  apply (find_similar_persons_pairs_rows Np.argsort_insertion origin three_ids three_rows 2
           [("p1"%string, 0%float); ("p2"%string, 1%float)] eq_refl).
  right. now left.
Defined.

(** X11: with at least as many person ids as rows the call never raises;
    with fewer ids, asking for all rows raises IndexError; an empty
    corpus gives the empty list for every [k]. *)
Theorem find_similar_persons_index_error
    (argsort : list float -> list nat)
    (p : Np.array3) (ids : list string) (coords : list Np.array3) (k : Z) :
  Np.is_argsort (distances p coords) (argsort (distances p coords)) ->
  (List.length coords <= List.length ids ->
     exists r, find_similar_persons argsort p ids coords k = Some r) /\
  (List.length ids < List.length coords -> (Z.of_nat (List.length coords) <= k)%Z ->
     find_similar_persons argsort p ids coords k = None) /\
  (coords = [] -> find_similar_persons argsort p ids coords k = Some []).
Proof.
  intros Hsort.
  assert (HIn : forall i, In i (argsort (distances p coords)) <-> i < List.length coords).
  { intros i. rewrite (is_argsort_In _ _ i Hsort). now rewrite distances_length. }
  assert (Hsome : List.length coords <= List.length ids ->
            find_similar_persons argsort p ids coords k =
              Some (map (fun i => (nth i ids ""%string, Np.item (distances p coords) i))
                        (Py.slice_to k (argsort (distances p coords))))).
  { intros Hlen. unfold find_similar_persons. cbv zeta.
    apply pair_up_map. intros i Hi. rewrite distances_length.
    rewrite slice_to_firstn in Hi. apply firstn_In, HIn in Hi. lia. }
  split; [|split].
  - intros Hlen. eexists. now apply Hsome.
  - intros Hlen Hk. unfold find_similar_persons. cbv zeta.
    apply (pair_up_out_of_range _ _ _ (List.length ids)); [|lia].
    rewrite slice_to_firstn. destruct (Z.ltb_spec k 0); [lia|].
    rewrite firstn_all2.
    + now apply HIn.
    + rewrite (is_argsort_length _ _ Hsort), distances_length. lia.
  - intros ->. rewrite (Hsome (Nat.le_0_l _)).
    destruct Hsort as [Hperm _]. simpl in *.
    apply Permutation_sym, Permutation_nil in Hperm. rewrite Hperm.
    now rewrite slice_to_firstn, firstn_nil.
Qed.

Lemma find_similar_persons_index_error_witness :
  find_similar_persons Np.argsort_insertion origin ["p0"%string] three_rows 3 = None.
Proof.
  apply (find_similar_persons_index_error Np.argsort_insertion origin
           ["p0"%string] three_rows 3 (argsort_insertion_spec _)).
  - simpl. lia.
  - simpl. lia.
Defined.

End SimilarPersonsMore.

(* ================================================================== *)
(** * The projection uses the models of the latest load *)
(* ================================================================== *)

Module Projection.
Import ServiceState.

Section WithCollaborators.

Variables EmbeddingModel PCA UMAP LibError : Type.
Variable get_embeddings :
  EmbeddingModel -> list string -> LibError + list (list float).
Variable pca_transform : PCA -> list (list float) -> LibError + list (list float).
Variable umap_transform : UMAP -> list (list float) -> LibError + list (list float).
Variable dot : Np.array3 -> Np.array3 -> float.
Variable argsort : list float -> list nat.

Abbreviation service := (EmbeddingService EmbeddingModel PCA UMAP).
Abbreviation project := (project_to_3d pca_transform umap_transform).
Abbreviation step := (after get_embeddings pca_transform umap_transform dot argsort).
Abbreviation steps := (after_all get_embeddings pca_transform umap_transform dot argsort).

Lemma project_two_stages (v : list float) (self : service) :
  _models_loaded self = true ->
  project v self = (two_stages pca_transform umap_transform (pca_model self) (umap_model self) v, self).
Proof.
  intros H. unfold project_to_3d, two_stages, bind, getattr, raise, ret, call_lib. simpl.
  rewrite H. simpl.
  destruct (pca_model self) as [p|]; simpl; [|reflexivity].
  destruct (pca_transform p [v]) as [e|m]; simpl; [reflexivity|].
  destruct (umap_model self) as [u|]; simpl; [|reflexivity].
  destruct (umap_transform u m) as [e|[|row rows]]; reflexivity.
Qed.

Lemma after_all_app (cs cs' : list (call PCA UMAP)) (self : service) :
  steps (cs ++ cs') self = steps cs' (steps cs self).
Proof. unfold after_all. apply fold_left_app. Qed.

(** X15: after any calls, a call of [load_reduction_models] and then
    calls of other methods, the projection applies the PCA of that load
    and then its UMAP and returns the first row; an exception of PCA is
    raised without UMAP being applied; a model that is [None] gives
    AttributeError; the instance is left as it was. *)
Theorem project_to_3d_latest_load
    (cs cs' : list (call PCA UMAP)) (pca : option PCA) (umap : option UMAP)
    (v : list float) (self : service) :
  forallb (fun c => negb (is_load c)) cs' = true ->
  let self' := steps (cs ++ Call_load_reduction_models pca umap :: cs') self in
  project v self' = (two_stages pca_transform umap_transform pca umap v, self') /\
  pca_model self' = pca /\ umap_model self' = umap.
Proof.
  intros H self'.
  assert (E : self' =
            mkService (embedding_model (steps cs self)) pca umap true).
  { unfold self'. rewrite after_all_app. simpl.
    change (fold_left _ cs' ?s) with (steps cs' s).
    now rewrite after_all_frame. }
  rewrite E. split; [|split; reflexivity].
  now rewrite project_two_stages.
Qed.

End WithCollaborators.

Lemma project_to_3d_latest_load_witness :
  fst (project_to_3d echo echo [1%float]
         (after_all no_embedding echo echo Np.dot_rounded Np.argsort_insertion
            [ Call_load_reduction_models None None;
              Call_load_reduction_models (Some tt) (Some tt);
              Call_find_nearest_cluster (0, 0, 0)%float [] ]
            (__init__ unit unit tt)))
    = inr [1%float].
Proof.
  pose proof (project_to_3d_latest_load unit unit unit unit no_embedding echo echo
                Np.dot_rounded Np.argsort_insertion
                [Call_load_reduction_models None None]
                [Call_find_nearest_cluster (0, 0, 0)%float []]
                (Some tt) (Some tt) [1%float] (__init__ unit unit tt) eq_refl) as H.
  destruct H as [H _]. exact (f_equal fst H).
Defined.

End Projection.
